(** * postprocess_browsecomp: recomputing accuracy without empty responses

    A shallow embedding of [src/postprocess_browsecomp.py] and the proofs of
    the properties its specification states.

    Modelling choices.
    - A Python [str] is a list of Unicode code points ([pystr]); literals of
      the source are written with [lit].
    - A Python [float] is a double that is not negative ([pyfloat]): a finite
      one is the rational it is worth, in lowest terms, and what the program
      computes is rounded to the nearest double, ties to even.
    - A JSON object is a record whose optional keys are [option] fields.
    - An exception is an explicit result: [None] in the helpers, an
      [Outcome] in [main].
    - What lies outside the program (the files found, the file loaded, the
      file written) is a [World]; the bundle loaded has the shape the
      specification gives it. *)

From Stdlib Require Import QArith Ascii String DecimalString.
From stdpp Require Import base list.

Close Scope Q_scope.
Open Scope N_scope.

(** ** Strings *)

Definition pystr := list N.

Definition lit (s : string) : pystr := N_of_ascii <$> list_ascii_of_string s.

Definition pystr_eqb (a b : pystr) : bool := bool_decide (a = b).

(** [s.startswith(p)] *)
Fixpoint startswith (s p : pystr) {struct p} : bool :=
  match p, s with
  | [], _ => true
  | _ :: _, [] => false
  | x :: p', y :: s' => (x =? y) && startswith s' p'
  end.

(** [str.isspace] on one code point, which is also the class [\s] of the
    [re] module on [str] patterns. *)
Definition is_space (c : N) : bool :=
  ((9 <=? c) && (c <=? 13)) || ((28 <=? c) && (c <=? 32))
  || (c =? 133) || (c =? 160) || (c =? 5760)
  || ((8192 <=? c) && (c <=? 8202))
  || (c =? 8232) || (c =? 8233) || (c =? 8239) || (c =? 8287) || (c =? 12288).

(** The class [[0-9]]. *)
Definition is_digit (c : N) : bool := (48 <=? c) && (c <=? 57).

Fixpoint lstrip (s : pystr) : pystr :=
  match s with
  | c :: s' => if is_space c then lstrip s' else s
  | [] => []
  end.

Definition rstrip (s : pystr) : pystr := reverse (lstrip (reverse s)).

(** [s.strip()] *)
Definition strip (s : pystr) : pystr := rstrip (lstrip s).

(** ** The empty-response detector *)

(** A message object of a conversation; a key that is absent (or [null]) is
    [None]. *)
Record Message := { role : option pystr; content : option pystr }.

Definition Convo := list Message.

(** [x or ""] for [x] a string or [None]. *)
Definition or_empty (x : option pystr) : pystr :=
  match x with
  | Some (c :: s) => c :: s
  | Some [] | None => []
  end.

Definition placeholder : pystr := lit "No response (bad request)".

Definition is_empty_assistant (convo : Convo) : bool :=
  match last convo with
  | None => true
  | Some last_msg =>
      let text := strip (or_empty (content last_msg)) in
      match text with
      | [] => true
      | _ :: _ => if startswith text placeholder then true else false
      end
  end.

(** ** The score extractor *)

(** The pattern is [Score:\s*(True|False|[0-9]+(?:\.[0-9]+)?)]. *)

Definition marker : pystr := lit "Score:".
Definition tok_True : pystr := lit "True".
Definition tok_False : pystr := lit "False".
Definition dot : N := 46.

(** Remove a literal from the front of the subject. *)
Fixpoint eat (p s : pystr) {struct p} : option pystr :=
  match p, s with
  | [], _ => Some s
  | _ :: _, [] => None
  | x :: p', y :: s' => if x =? y then eat p' s' else None
  end.

(** The longest run of digits at the front, and what follows it. *)
Fixpoint span_digits (s : pystr) : pystr * pystr :=
  match s with
  | c :: s' =>
      if is_digit c then let '(ds, r) := span_digits s' in (c :: ds, r)
      else ([], s)
  | [] => ([], [])
  end.

(** [[0-9]+(?:\.[0-9]+)?]: both repetitions are greedy and nothing follows
    them in the pattern, so the first attempt is the match. *)
Definition match_number (s : pystr) : option pystr :=
  match span_digits s with
  | ([], _) => None
  | (ip, c :: r) =>
      if c =? dot then
        match span_digits r with
        | ([], _) => Some ip
        | (fp, _) => Some (ip ++ dot :: fp)
        end
      else Some ip
  | (ip, []) => Some ip
  end.

(** The capturing group, its alternatives tried from left to right. *)
Definition match_group (s : pystr) : option pystr :=
  if startswith s tok_True then Some tok_True
  else if startswith s tok_False then Some tok_False
  else match_number s.

(** [\s*] followed by the group: the star takes as much white space as it
    can and gives it back one character at a time when the group fails. *)
Fixpoint match_ws_group (s : pystr) : option pystr :=
  match s with
  | c :: s' =>
      if is_space c then
        match match_ws_group s' with
        | Some t => Some t
        | None => match_group s
        end
      else match_group s
  | [] => match_group []
  end.

(** One attempt of the pattern, anchored at the front of [s]; the result is
    [m.group(1)]. *)
Definition match_here (s : pystr) : option pystr :=
  match eat marker s with
  | Some r => match_ws_group r
  | None => None
  end.

(** [re.search]: the attempts go from left to right, the end of the subject
    included. *)
Fixpoint re_search (s : pystr) : option pystr :=
  match match_here s with
  | Some t => Some t
  | None =>
      match s with
      | _ :: s' => re_search s'
      | [] => None
      end
  end.

(** ** Doubles *)

(** A [float] of Python that is not negative: a finite double, written as
    the rational it is worth, or [inf]. *)
Inductive pyfloat :=
| Finite (q : Q)
| Infinity.

(** [n / d] rounded to the nearest integer, ties to even ([0 <= n],
    [0 < d]). *)
Definition round_half_even (n d : Z) : Z :=
  let k := (n / d)%Z in
  match (2 * (n mod d) ?= d)%Z with
  | Lt => k
  | Gt => (k + 1)%Z
  | Eq => if Z.even k then k else (k + 1)%Z
  end.

(** The [g] with [2 ^ g <= n / d < 2 ^ (g + 1)] ([0 < n], [0 < d]). *)
Definition floor_log2 (n d : Z) : Z :=
  let g := (Z.log2 n - Z.log2 d)%Z in
  let below :=
    if (0 <=? g)%Z then (n <? d * 2 ^ g)%Z else (n * 2 ^ (- g) <? d)%Z in
  if below then (g - 1)%Z else g.

(** The binary64 number nearest to [n / d], ties to even: 53 bits from the
    leading one, no bit below [2 ^ -1074], and [inf] from [2 ^ 1024] on. *)
Definition round_fraction (n d : Z) : pyfloat :=
  if (n <=? 0)%Z then Finite 0%Q
  else
    let e := Z.max (floor_log2 n d - 52) (-1074) in
    if (0 <=? e)%Z then
      let m := round_half_even n (d * 2 ^ e) in
      if (2 ^ 1024 <=? m * 2 ^ e)%Z then Infinity
      else Finite (Qred (m * 2 ^ e # 1))
    else
      let m := round_half_even (n * 2 ^ (- e)) d in
      Finite (Qred (m # Z.to_pos (2 ^ (- e)))).

(** The double nearest to a rational that is not negative, as [int / int]
    and [float(str)] give it. *)
Definition round_double (q : Q) : pyfloat :=
  round_fraction (Qnum (Qred q)) (Zpos (Qden (Qred q))).

(** The number a string of digits denotes. *)
Definition digits_value (ds : pystr) : N :=
  fold_left (fun acc d => 10 * acc + (d - 48)) ds 0.

(** [float(token)] on a token [digits] or [digits.digits]: the double nearest
    to the number written; [None] stands for the [ValueError] on any other
    string. *)
Definition float (token : pystr) : option pyfloat :=
  match span_digits token with
  | ([], _) => None
  | (ip, []) => Some (round_double (Z.of_N (digits_value ip) # 1))
  | (ip, c :: fp) =>
      if (c =? dot) && negb (pystr_eqb fp []) && forallb is_digit fp
      then Some (round_double (Z.of_N (digits_value (ip ++ fp))
                               # Pos.pow 10 (Pos.of_nat (length fp))))
      else None
  end.

Definition extract_score_from_html (html : pystr) : option pyfloat :=
  match re_search html with
  | None => None
  | Some token =>
      if pystr_eqb token tok_True || pystr_eqb token tok_False then
        Some (if pystr_eqb token tok_True then Finite 1%Q else Finite 0%Q)
      else
        match float token with
        | Some x => Some x
        | None => None
        end
  end.

(** ** The aggregation loop *)

Record LoopState := {
  kept_scores : list pyfloat;
  kept_htmls : list pystr;
  skipped : nat
}.

Definition loop_init : LoopState :=
  {| kept_scores := []; kept_htmls := []; skipped := 0 |}.

Definition skip (st : LoopState) : LoopState :=
  {| kept_scores := kept_scores st; kept_htmls := kept_htmls st;
     skipped := S (skipped st) |}.

Definition keep (score : pyfloat) (html : pystr) (st : LoopState) : LoopState :=
  {| kept_scores := kept_scores st ++ [score];
     kept_htmls := kept_htmls st ++ [html];
     skipped := skipped st |}.

(** The body of [for i in range(n)]; [None] is the [IndexError] of
    [convos[i]] or [htmls[i]]. *)
Definition loop_body (htmls : list pystr) (convos : list Convo)
    (st : LoopState) (i : nat) : option LoopState :=
  match convos !! i with
  | None => None
  | Some convo =>
      if is_empty_assistant convo then Some (skip st)
      else
        match htmls !! i with
        | None => None
        | Some html =>
            match extract_score_from_html html with
            | None => Some (skip st)
            | Some score => Some (keep score html st)
            end
        end
  end.

Fixpoint for_range (body : LoopState -> nat -> option LoopState)
    (indices : list nat) (st : LoopState) : option LoopState :=
  match indices with
  | [] => Some st
  | i :: rest =>
      match body st i with
      | Some st' => for_range body rest st'
      | None => None
      end
  end.

(** [range(n)] with [n = min(len(htmls), len(convos))]. *)
Definition loop_indices (htmls : list pystr) (convos : list Convo) : list nat :=
  seq 0 (Nat.min (length htmls) (length convos)).

Definition aggregate (htmls : list pystr) (convos : list Convo)
    : option LoopState :=
  for_range (loop_body htmls convos) (loop_indices htmls convos) loop_init.

(** The rational a finite double is worth. *)
Definition exact_ratio (x : pyfloat) : option Q :=
  match x with
  | Finite q => Some q
  | Infinity => None
  end.

Definition Qsum (xs : list Q) : Q := fold_right Qplus 0%Q xs.

(** [statistics.mean]: the exact sum of the data over their number, rounded
    once at the end; [inf] as soon as one of the data is [inf]; [None] is the
    [StatisticsError] on no data. *)
Definition mean (xs : list pyfloat) : option pyfloat :=
  match xs with
  | [] => None
  | _ :: _ =>
      match mapM exact_ratio xs with
      | Some qs =>
          Some (round_double (Qsum qs / inject_Z (Z.of_nat (length xs))))
      | None => Some Infinity
      end
  end.

(** ** Paths *)

Definition slash : N := 47.

(** [s.rfind(c)], [-1] when [c] does not occur. *)
Fixpoint rfind_from (c : N) (s : pystr) (i : Z) (found : Z) : Z :=
  match s with
  | [] => found
  | x :: s' => rfind_from c s' (i + 1)%Z (if x =? c then i else found)
  end.

Definition rfind (c : N) (s : pystr) : Z := rfind_from c s 0%Z (-1)%Z.

(** [os.path.splitext(p)[0]] (posixpath): the extension starts at the last
    dot of the last component, unless only dots precede it there. *)
Definition splitext_root (p : pystr) : pystr :=
  let sepIndex := rfind slash p in
  let dotIndex := rfind dot p in
  if (sepIndex <? dotIndex)%Z then
    let filenameIndex := Z.to_nat (sepIndex + 1) in
    let before := take (Z.to_nat dotIndex - filenameIndex)%nat (drop filenameIndex p) in
    if existsb (fun c => negb (c =? dot)) before
    then take (Z.to_nat dotIndex) p
    else p
  else p.

(** [os.path.basename(p)] *)
Definition basename (p : pystr) : pystr :=
  drop (Z.to_nat (rfind slash p + 1)) p.

(** [s.replace(old, new)] for a non-empty [old]; [pending] counts the
    characters of an occurrence still to be dropped. *)
Fixpoint replace_from (old new : pystr) (pending : nat) (s : pystr) : pystr :=
  match s with
  | [] => []
  | c :: s' =>
      match pending with
      | S k => replace_from old new k s'
      | O =>
          if startswith s old
          then new ++ replace_from old new (length old - 1) s'
          else c :: replace_from old new 0 s'
      end
  end.

Definition replace (old new s : pystr) : pystr := replace_from old new 0 s.

Definition out_html_path (result_file : pystr) : pystr :=
  splitext_root (replace (lit "_allresults") (lit "_postprocessed") result_file)
  ++ lit ".html".

(** [sorted] on strings: a stable insertion sort by code points. *)
Fixpoint pystr_leb (a b : pystr) : bool :=
  match a, b with
  | [], _ => true
  | _ :: _, [] => false
  | x :: a', y :: b' =>
      if x <? y then true else if y <? x then false else pystr_leb a' b'
  end.

Fixpoint insert_sorted (x : pystr) (l : list pystr) : list pystr :=
  match l with
  | [] => [x]
  | y :: l' => if pystr_leb x y then x :: l else y :: insert_sorted x l'
  end.

Definition sorted (l : list pystr) : list pystr := foldr insert_sorted [] l.

(** ** The program *)

Inductive JsonScalar :=
| JNull
| JBool (b : bool)
| JNumber (x : Q)
| JString (s : pystr).

(** The parsed results bundle; an absent top-level key is [None]. *)
Record Data := {
  htmls : option (list pystr);
  convos : option (list Convo);
  score : option JsonScalar
}.

Record Args := { arg_file : option pystr; arg_latest : bool }.

(** What the program meets outside: the paths [glob.glob] finds for
    [/tmp/browsecomp_*_allresults.json]; [open] followed by [json.load]
    ([None] when either raises); and [open(path, "w")] followed by
    [fh.write(text)] ([false] when either raises). *)
Record World := {
  tmp_glob : list pystr;
  json_load : pystr -> option Data;
  write_file : pystr -> pystr -> bool
}.

Record Summary := {
  file : pystr;
  original_aggregate_score : option JsonScalar;
  total_examples : nat;
  kept_examples : nat;
  skipped_examples : nat;
  recomputed_accuracy_excluding_empty : pyfloat
}.

Inductive Event :=
| PrintWarning (n_htmls n_convos : nat)
| PrintSummary (s : Summary)
| WriteFile (path text : pystr)
| PrintReportPath (path : pystr).

(** How a run ends: [raise SystemExit(msg)], an exception nobody catches
    (after the output so far), or the end of [main]. *)
Inductive Outcome :=
| SystemExit (msg : pystr)
| Raised (out : list Event)
| Finished (out : list Event).

Definition exit_status (o : Outcome) : nat :=
  match o with
  | SystemExit _ | Raised _ => 1
  | Finished _ => 0
  end.

(** [bool(x)] for [x] a string or [None]. *)
Definition truthy (x : option pystr) : bool :=
  match x with
  | Some (_ :: _) => true
  | Some [] | None => false
  end.

Definition msg_no_files : pystr := lit "No /tmp/browsecomp_*_allresults.json files found".
Definition msg_must_provide : pystr := lit "Must provide --file or --latest".

(** Lines 62-69 of [main]: the input path, or the message of the exit. *)
Definition resolve_input (w : World) (args : Args) : pystr + pystr :=
  let after_latest : pystr + option pystr :=
    if arg_latest args && negb (truthy (arg_file args)) then
      match last (sorted (tmp_glob w)) with
      | None => inl msg_no_files
      | Some c => inr (Some c)
      end
    else inr (arg_file args) in
  match after_latest with
  | inl msg => inl msg
  | inr result_file =>
      if negb (truthy result_file) then inl msg_must_provide
      else inr (default [] result_file)
  end.

Definition str_of_nat (n : nat) : pystr :=
  lit (NilZero.string_of_uint (Nat.to_uint n)).

Section Main.

(** [common.make_report_from_example_htmls], which lives in another module of
    the repository, and the float formatting [{x:.3f}]. *)
Variable make_report_from_example_htmls : list pystr -> pystr.
Variable format_3f : pyfloat -> pystr.

Definition header_block (result_file : pystr) (total kept skipped : nat)
    (acc : pyfloat) : pystr :=
  lit "<h2>Postprocessed Report</h2>"
  ++ lit "<p>Source JSON: " ++ basename result_file ++ lit "</p>"
  ++ lit "<p>Total: " ++ str_of_nat total
  ++ lit " | Kept: " ++ str_of_nat kept
  ++ lit " | Skipped: " ++ str_of_nat skipped
  ++ lit " | Accuracy (kept): " ++ format_3f acc ++ lit "</p>".

(** Lines 74-122 of [main]: everything after [json.load]. *)
Definition process (w : World) (result_file : pystr) (data : Data) : Outcome :=
  let hs := default [] (htmls data) in
  let cs := default [] (convos data) in
  let total := length hs in
  let warning :=
    if bool_decide (length cs = total) then []
    else [PrintWarning (length hs) (length cs)] in
  match aggregate hs cs with
  | None => Raised warning
  | Some st =>
      let kept := length (kept_scores st) in
      let acc :=
        match kept_scores st with
        | _ :: _ => mean (kept_scores st)
        | [] => Some (Finite 0%Q)
        end in
      match acc with
      | None => Raised warning
      | Some recomputed_acc =>
          let summary :=
            {| file := result_file;
               original_aggregate_score := score data;
               total_examples := total;
               kept_examples := kept;
               skipped_examples := skipped st;
               recomputed_accuracy_excluding_empty := recomputed_acc |} in
          let out_html := out_html_path result_file in
          let header :=
            header_block result_file total kept (skipped st) recomputed_acc in
          let html_content :=
            make_report_from_example_htmls (header :: kept_htmls st) in
          if write_file w out_html html_content then
            Finished (warning ++
                      [PrintSummary summary;
                       WriteFile out_html html_content;
                       PrintReportPath out_html])
          else Raised (warning ++ [PrintSummary summary])
      end
  end.

Definition main (w : World) (args : Args) : Outcome :=
  match resolve_input w args with
  | inl msg => SystemExit msg
  | inr result_file =>
      match json_load w result_file with
      | None => Raised []
      | Some data => process w result_file data
      end
  end.

End Main.

(** ** The outcome of one example, as the specification words it *)

(** An example is kept with its score, or skipped ([None]): skipped when the
    response is empty, and when no score is found. *)
Definition outcome_of (html : pystr) (convo : Convo) : option pyfloat :=
  if is_empty_assistant convo then None else extract_score_from_html html.

Definition step (st : LoopState) (p : pystr * Convo) : LoopState :=
  match outcome_of p.1 p.2 with
  | Some sc => keep sc p.1 st
  | None => skip st
  end.

Definition is_kept (p : pystr * Convo) : bool :=
  match outcome_of p.1 p.2 with Some _ => true | None => false end.

(** The scores of the kept examples, in input order. *)
Definition scores_of_kept (hs : list pystr) (cs : list Convo) : list pyfloat :=
  omap (fun p => outcome_of p.1 p.2) (zip hs cs).

(** The arithmetic mean of rationals: their sum over their number. *)
Fixpoint sum_of (xs : list Q) : Q :=
  match xs with
  | [] => 0%Q
  | x :: xs' => (x + sum_of xs')%Q
  end.

Definition arithmetic_mean (xs : list Q) : Q :=
  (sum_of xs / (Z.of_nat (length xs) # 1))%Q.

(** The order of doubles. *)
Definition fle (a b : pyfloat) : Prop :=
  match a, b with
  | Finite x, Finite y => (x <= y)%Q
  | _, Infinity => True
  | Infinity, Finite _ => False
  end.

(** [sub in s]: [sub] occurs somewhere in [s]. *)
Fixpoint contains (s sub : pystr) : bool :=
  startswith s sub
  || match s with
     | _ :: s' => contains s' sub
     | [] => false
     end.

(** The first character of [s], if any, is not a digit. *)
Definition no_digit_ahead (s : pystr) : Prop :=
  forall c, head s = Some c -> is_digit c = false.

(** [t] is [s] without its surrounding white space. *)
Definition trimmed_to (s t : pystr) : Prop :=
  exists l r, s = l ++ t ++ r
    /\ Forall (fun c => is_space c = true) l
    /\ Forall (fun c => is_space c = true) r
    /\ (forall c, head t = Some c -> is_space c = false)
    /\ (forall c, last t = Some c -> is_space c = false).

(** The conversations the specification lists as always skipped: no
    message at all, or a last message whose content is missing, empty or only
    white space, or starts with the placeholder. *)
Definition listed_as_skipped (convo : Convo) : Prop :=
  convo = []
  \/ exists m, last convo = Some m
       /\ (Forall (fun c => is_space c = true) (or_empty (content m))
           \/ startswith (or_empty (content m)) placeholder = true).

(** The number a row of digits writes in decimal notation: each digit
    counts for its power of ten. *)
Fixpoint numeral (ds : pystr) : Z :=
  match ds with
  | [] => 0%Z
  | d :: ds' =>
      (Z.of_N (d - 48) * 10 ^ Z.of_nat (length ds') + numeral ds')%Z
  end.

(** The number written [ip.fp] in decimal notation. *)
Definition decimal_value (ip fp : pystr) : Q :=
  (inject_Z (numeral ip)
   + inject_Z (numeral fp) / inject_Z (10 ^ Z.of_nat (length fp)))%Q.

(** A suffix that cannot extend an integer token: it starts neither with a
    digit nor with a dot and a digit. *)
Definition ends_integer (suf : pystr) : Prop :=
  no_digit_ahead suf /\ forall r, suf = dot :: r -> no_digit_ahead r.

(** A list of strings in increasing order of code points. *)
Fixpoint increasing (l : list pystr) : Prop :=
  match l with
  | [] => True
  | x :: l' => (forall y, y ∈ l' -> pystr_leb x y = true) /\ increasing l'
  end.

(** The two tokens of the report's name. *)
Definition tok_allresults : pystr := lit "_allresults".
Definition tok_postprocessed : pystr := lit "_postprocessed".

(** Where a score can be read, in words: after the marker and any white
    space comes [True], [False] or a digit. *)
Definition starts_token (s : pystr) : Prop :=
  (exists r, s = lit "True" ++ r)
  \/ (exists r, s = lit "False" ++ r)
  \/ (exists d r, s = d :: r /\ is_digit d = true).

Definition has_score (html : pystr) : Prop :=
  exists pre ws rest,
    html = pre ++ lit "Score:" ++ ws ++ rest
    /\ Forall (fun c => is_space c = true) ws
    /\ starts_token rest.

(** ** What a run shows *)

(** What a run printed and wrote, in order. *)
Definition output (o : Outcome) : list Event :=
  match o with
  | Finished out | Raised out => out
  | SystemExit _ => []
  end.

(** The summary a run printed. *)
Definition printed_summary (o : Outcome) : option Summary :=
  head (omap (fun e => match e with PrintSummary s => Some s | _ => None end)
          (output o)).

(** The report a run wrote: its path and its text. *)
Definition written_report (o : Outcome) : option (pystr * pystr) :=
  head (omap (fun e => match e with WriteFile p t => Some (p, t) | _ => None end)
          (output o)).

(** The length-mismatch warnings a run printed. *)
Definition printed_warnings (o : Outcome) : list (nat * nat) :=
  omap (fun e => match e with PrintWarning a b => Some (a, b) | _ => None end)
    (output o).

(** Every write to [path] succeeds. *)
Definition writable (w : World) (path : pystr) : Prop :=
  forall text, write_file w path text = true.

Definition get_htmls (data : Data) : list pystr := default [] (htmls data).
Definition get_convos (data : Data) : list Convo := default [] (convos data).

(** ** Sample inputs *)

Definition say (text : string) : Message :=
  {| role := Some (lit "assistant"); content := Some (lit text) |}.

(** Three examples: an empty conversation, a correct answer and a wrong
    one. *)
Definition sample_data : Data :=
  {| htmls := Some [lit "<p>Score: True</p>";
                    lit "<p>Score: True</p>";
                    lit "<p>Score: 0.0</p>"];
     convos := Some [[]; [say "Paris"]; [say "Rome"]];
     score := Some (JNumber (2 # 3)) |}.

(** Five snippets and three conversations. *)
Definition mismatched_data : Data :=
  {| htmls := Some [lit "Score: True"; lit "Score: False"; lit "Score: 1";
                    lit "Score: True"; lit "Score: True"];
     convos := Some [[say "a"]; [say "b"]; [say "   "]];
     score := None |}.

(** Three answered examples, two of them right. *)
Definition thirds_data : Data :=
  {| htmls := Some [lit "<p>Score: True</p>";
                    lit "<p>Score: True</p>";
                    lit "<p>Score: False</p>"];
     convos := Some [[say "Paris"]; [say "Rome"]; [say "Oslo"]];
     score := None |}.

(** A bundle with neither [htmls] nor [convos]. *)
Definition bare_data : Data :=
  {| htmls := None; convos := None; score := None |}.

Definition sample_path : pystr := lit "/tmp/browsecomp_20250101_allresults.json".

(** A machine with nothing under [/tmp] where every file holds
    [bare_data]. *)
Definition empty_tmp_world : World :=
  {| tmp_glob := []; json_load := fun _ => Some bare_data;
     write_file := fun _ _ => true |}.

(** A machine where [sample_path] holds [mismatched_data]. *)
Definition sample_world : World :=
  {| tmp_glob := [lit "/tmp/browsecomp_20240101_allresults.json"; sample_path];
     json_load := fun p =>
       if pystr_eqb p sample_path then Some mismatched_data else None;
     write_file := fun _ _ => true |}.

(** The same machine with nowhere to write. *)
Definition read_only_world : World :=
  {| tmp_glob := tmp_glob sample_world;
     json_load := json_load sample_world;
     write_file := fun _ _ => false |}.

Definition plain_render (blocks : list pystr) : pystr := concat blocks.
Definition plain_format (x : pyfloat) : pystr := [].

Example ex_true :
  extract_score_from_html (lit "<p>Score: True</p>") = Some (Finite 1).
Proof. vm_compute. reflexivity. Qed.
Example ex_075 :
  extract_score_from_html (lit "<p>Score: 0.75</p>") = Some (Finite (3 # 4)).
Proof. vm_compute. reflexivity. Qed.
Example ex_5 : extract_score_from_html (lit "Score:5.") = Some (Finite 5).
Proof. vm_compute. reflexivity. Qed.
Example ex_none : extract_score_from_html (lit "Score: n/a") = None.
Proof. vm_compute. reflexivity. Qed.
Example ex_tenth :
  float (lit "0.1") = Some (Finite (3602879701896397 # 36028797018963968)).
Proof. vm_compute. reflexivity. Qed.
Example ex_twenty_digits :
  float (lit "12345678901234567890") = Some (Finite 12345678901234567168).
Proof. vm_compute. reflexivity. Qed.
Example ex_two_thirds :
  mean [Finite 1; Finite 1; Finite 0]
  = Some (Finite (6004799503160661 # 9007199254740992)).
Proof. vm_compute. reflexivity. Qed.
Example ex_inf :
  round_double (inject_Z (10 ^ 400)) = Infinity
  /\ round_double (inject_Z (2 ^ 1024 - 2 ^ 970)) = Infinity
  /\ round_double (inject_Z (2 ^ 1024 - 2 ^ 970 - 1))
     = Finite (inject_Z (2 ^ 1024 - 2 ^ 971))
  /\ mean [Finite 1; Infinity] = Some Infinity.
Proof. vm_compute. repeat split; reflexivity. Qed.
Example ex_tiny :
  round_double (1 # Z.to_pos (2 ^ 1075)) = Finite 0
  /\ round_double (3 # Z.to_pos (2 ^ 1075)) = Finite (1 # Z.to_pos (2 ^ 1073))
  /\ round_double (1 # Z.to_pos (2 ^ 1074)) = Finite (1 # Z.to_pos (2 ^ 1074)).
Proof. vm_compute. repeat split; reflexivity. Qed.
Example ex_empty1 : is_empty_assistant [ {| role := None; content := Some (lit "   ") |} ] = true.
Proof. vm_compute. reflexivity. Qed.
Example ex_empty2 : is_empty_assistant [ {| role := None; content := Some (lit " No response (bad request): x ") |} ] = true.
Proof. vm_compute. reflexivity. Qed.
Example ex_empty3 : is_empty_assistant [ {| role := None; content := Some (lit " ok ") |} ] = false.
Proof. vm_compute. reflexivity. Qed.
Example ex_path : out_html_path (lit "/tmp/browsecomp_x_allresults.json") = lit "/tmp/browsecomp_x_postprocessed.html".
Proof. vm_compute. reflexivity. Qed.
Example ex_path2 : out_html_path (lit "/tmp.d/.hidden") = lit "/tmp.d/.hidden.html".
Proof. vm_compute. reflexivity. Qed.
Example ex_base : basename (lit "/tmp/a.json") = lit "a.json".
Proof. vm_compute. reflexivity. Qed.
Example ex_sorted : sorted [lit "b"; lit "a"; lit "ab"] = [lit "a"; lit "ab"; lit "b"].
Proof. vm_compute. reflexivity. Qed.
Example ex_nat : str_of_nat 120 = lit "120" /\ str_of_nat 0 = lit "0".
Proof. vm_compute. split; reflexivity. Qed.
Example ex_end_to_end :
  printed_summary
    (process plain_render plain_format sample_world sample_path sample_data)
  = Some {| file := sample_path;
            original_aggregate_score := Some (JNumber (2 # 3));
            total_examples := 3;
            kept_examples := 2;
            skipped_examples := 1;
            recomputed_accuracy_excluding_empty := Finite (1 # 2) |}.
Proof. vm_compute. reflexivity. Qed.
Example ex_write_fails :
  main plain_render plain_format read_only_world
    {| arg_file := None; arg_latest := true |}
  = Raised [PrintWarning 5 3;
            PrintSummary
              {| file := sample_path;
                 original_aggregate_score := None;
                 total_examples := 5;
                 kept_examples := 2;
                 skipped_examples := 1;
                 recomputed_accuracy_excluding_empty := Finite (1 # 2) |}].
Proof. vm_compute. reflexivity. Qed.
Example ex_latest :
  resolve_input sample_world {| arg_file := None; arg_latest := true |}
  = inr sample_path.
Proof. vm_compute. reflexivity. Qed.

(** * Proofs *)

(** ** The loop as a fold over the paired inputs *)

Lemma loop_body_in_range hs cs st i h c :
  hs !! i = Some h -> cs !! i = Some c ->
  loop_body hs cs st i = Some (step st (h, c)).
Proof.
  intros Hh Hc. unfold loop_body, step, outcome_of. rewrite Hc, Hh. simpl.
  destruct (is_empty_assistant c); [reflexivity|].
  destruct (extract_score_from_html h); reflexivity.
Qed.

Lemma lookup_zip_pair (hs : list pystr) (cs : list Convo) i p :
  zip hs cs !! i = Some p -> hs !! i = Some p.1 /\ cs !! i = Some p.2.
Proof.
  revert cs i. induction hs as [|h hs IH]; intros [|c cs] [|i] H;
    simpl in *; try discriminate.
  - inversion H; subst. split; reflexivity.
  - apply IH, H.
Qed.

Lemma for_range_slice hs cs m : forall k st,
  (k + m <= length (zip hs cs))%nat ->
  for_range (loop_body hs cs) (seq k m) st
  = Some (foldl step st (take m (drop k (zip hs cs)))).
Proof.
  induction m as [|m IH]; intros k st Hlen.
  - reflexivity.
  - destruct (lookup_lt_is_Some_2 (zip hs cs) k) as [p Hp]; [lia|].
    destruct (lookup_zip_pair _ _ _ _ Hp) as [Hh Hc].
    simpl seq. simpl for_range.
    rewrite (loop_body_in_range _ _ _ _ _ _ Hh Hc).
    rewrite IH by lia. rewrite (drop_S _ _ _ Hp). simpl.
    destruct p; reflexivity.
Qed.

Lemma aggregate_foldl hs cs :
  aggregate hs cs = Some (foldl step loop_init (zip hs cs)).
Proof.
  unfold aggregate, loop_indices.
  rewrite for_range_slice by (rewrite length_zip; lia).
  rewrite drop_0, take_ge by (rewrite length_zip; lia). reflexivity.
Qed.

Lemma foldl_step_scores l : forall st,
  kept_scores (foldl step st l)
  = kept_scores st ++ omap (fun p => outcome_of p.1 p.2) l.
Proof.
  induction l as [|p l IH]; intros st; simpl.
  - rewrite app_nil_r. reflexivity.
  - rewrite IH. unfold step.
    destruct (outcome_of p.1 p.2); simpl; [|reflexivity].
    rewrite <- app_assoc. reflexivity.
Qed.

Lemma foldl_step_htmls l : forall st,
  kept_htmls (foldl step st l)
  = kept_htmls st ++ (fst <$> filter (fun p => is_kept p) l).
Proof.
  induction l as [|p l IH]; intros st; simpl.
  - rewrite app_nil_r. reflexivity.
  - rewrite IH. unfold step, is_kept, filter. simpl.
    destruct (outcome_of p.1 p.2); simpl; [|reflexivity].
    rewrite <- app_assoc. reflexivity.
Qed.

Lemma foldl_step_skipped l : forall st,
  skipped (foldl step st l)
  = (skipped st + length (filter (fun p => ¬ is_kept p) l))%nat.
Proof.
  induction l as [|p l IH]; intros st; simpl.
  - lia.
  - rewrite IH, filter_cons. unfold step.
    destruct (outcome_of p.1 p.2) eqn:E.
    + assert (K : is_kept p = true) by (unfold is_kept; rewrite E; reflexivity).
      rewrite decide_False by (rewrite K; simpl; tauto). reflexivity.
    + assert (K : is_kept p = false) by (unfold is_kept; rewrite E; reflexivity).
      rewrite decide_True by (rewrite K; simpl; tauto).
      cbn [length skip skipped]. lia.
Qed.

Lemma length_omap_outcome l :
  length (omap (fun p : pystr * Convo => outcome_of p.1 p.2) l)
  = length (filter (fun p => is_kept p) l).
Proof.
  induction l as [|p l IH]; [reflexivity|].
  rewrite filter_cons. cbn [omap list_omap].
  destruct (outcome_of p.1 p.2) eqn:E.
  - assert (K : is_kept p = true) by (unfold is_kept; rewrite E; reflexivity).
    rewrite decide_True by (rewrite K; exact I). cbn [length].
    f_equal. exact IH.
  - assert (K : is_kept p = false) by (unfold is_kept; rewrite E; reflexivity).
    rewrite decide_False by (rewrite K; simpl; tauto). exact IH.
Qed.

Lemma length_filter_split (l : list (pystr * Convo)) :
  (length (filter (fun p => is_kept p) l)
   + length (filter (fun p => ¬ is_kept p) l) = length l)%nat.
Proof.
  induction l as [|p l IH]; [reflexivity|].
  rewrite !filter_cons. destruct (is_kept p); simpl; lia.
Qed.

Lemma aggregate_total hs cs :
  exists st, aggregate hs cs = Some st
    /\ kept_scores st = scores_of_kept hs cs
    /\ kept_htmls st = (fst <$> filter (fun p => is_kept p) (zip hs cs))
    /\ skipped st = length (filter (fun p => ¬ is_kept p) (zip hs cs)).
Proof.
  eexists. split; [apply aggregate_foldl|].
  rewrite foldl_step_scores, foldl_step_htmls, foldl_step_skipped.
  repeat split.
Qed.

Lemma aggregate_counts hs cs st :
  aggregate hs cs = Some st ->
  (length (kept_scores st) + skipped st
   = Nat.min (length hs) (length cs))%nat.
Proof.
  destruct (aggregate_total hs cs) as (st' & Ha & Hs & _ & Hk).
  rewrite Ha. intros [= <-]. rewrite Hs, Hk. unfold scores_of_kept.
  rewrite length_omap_outcome, length_filter_split, length_zip. reflexivity.
Qed.

(** ** After the load, only the write can fail *)

Section ProcessFacts.

Variable render : list pystr -> pystr.
Variable fmt : pyfloat -> pystr.

Lemma process_outcome w path data :
  exists st acc,
    aggregate (get_htmls data) (get_convos data) = Some st
    /\ (kept_scores st = [] /\ acc = Finite 0
        \/ kept_scores st <> [] /\ mean (kept_scores st) = Some acc)
    /\ process render fmt w path data
       = let warning :=
           if bool_decide (length (get_convos data) = length (get_htmls data))
           then []
           else [PrintWarning (length (get_htmls data))
                   (length (get_convos data))] in
         let summary :=
           {| file := path;
              original_aggregate_score := score data;
              total_examples := length (get_htmls data);
              kept_examples := length (kept_scores st);
              skipped_examples := skipped st;
              recomputed_accuracy_excluding_empty := acc |} in
         let text :=
           render (header_block fmt path (length (get_htmls data))
                     (length (kept_scores st)) (skipped st) acc
                   :: kept_htmls st) in
         if write_file w (out_html_path path) text
         then Finished (warning ++
                        [PrintSummary summary;
                         WriteFile (out_html_path path) text;
                         PrintReportPath (out_html_path path)])
         else Raised (warning ++ [PrintSummary summary]).
Proof.
  destruct (aggregate_total (get_htmls data) (get_convos data)) as (st & Ha & _).
  unfold process. fold (get_htmls data) (get_convos data). rewrite Ha.
  destruct (kept_scores st) as [|x xs] eqn:E.
  - exists st, (Finite 0). rewrite E. split; [reflexivity|].
    split; [left; split; reflexivity|]. reflexivity.
  - assert (Hm : exists acc, mean (x :: xs) = Some acc).
    { unfold mean. destruct (mapM exact_ratio (x :: xs)); eexists; reflexivity. }
    destruct Hm as (acc & Hm). exists st, acc. rewrite E, Hm.
    split; [reflexivity|]. split; [right; split; [discriminate|reflexivity]|].
    reflexivity.
Qed.

Lemma process_summary w path data :
  exists st acc,
    aggregate (get_htmls data) (get_convos data) = Some st
    /\ (kept_scores st = [] /\ acc = Finite 0
        \/ kept_scores st <> [] /\ mean (kept_scores st) = Some acc)
    /\ printed_summary (process render fmt w path data)
       = Some {| file := path;
                 original_aggregate_score := score data;
                 total_examples := length (get_htmls data);
                 kept_examples := length (kept_scores st);
                 skipped_examples := skipped st;
                 recomputed_accuracy_excluding_empty := acc |}.
Proof.
  destruct (process_outcome w path data) as (st & acc & Ha & Hacc & Hp).
  exists st, acc. split; [exact Ha|]. split; [exact Hacc|].
  rewrite Hp. cbv zeta. unfold printed_summary.
  destruct (write_file w _ _); case_bool_decide; reflexivity.
Qed.

End ProcessFacts.

(** ** Rounding to a double *)

Lemma round_half_even_nonneg n d :
  (0 <= n)%Z -> (0 < d)%Z -> (0 <= round_half_even n d)%Z.
Proof.
  intros Hn Hd. unfold round_half_even.
  pose proof (Z.div_pos n d Hn Hd).
  destruct (2 * (n mod d) ?= d)%Z; [destruct (Z.even _)|..]; lia.
Qed.

Lemma round_half_even_le n d k :
  (0 < d)%Z -> (n <= k * d)%Z -> (round_half_even n d <= k)%Z.
Proof.
  intros Hd Hn. unfold round_half_even.
  pose proof (Z.div_mod n d ltac:(lia)) as Hdm.
  pose proof (Z.mod_pos_bound n d Hd) as Hm.
  assert (Hle : (n / d <= k)%Z).
  { apply Z.div_le_upper_bound; lia. }
  destruct (Z.eq_dec (n / d)%Z k) as [Hk|Hk].
  - assert (Hz : (n mod d = 0)%Z) by nia.
    assert (E : (2 * (n mod d) ?= d)%Z = Lt)
      by (apply Z.compare_lt_iff; lia).
    rewrite E. lia.
  - destruct (2 * (n mod d) ?= d)%Z; [destruct (Z.even _)|..]; lia.
Qed.

Lemma floor_log2_le_0 n d :
  (0 < n)%Z -> (n <= d)%Z -> (floor_log2 n d <= 0)%Z.
Proof.
  intros Hn Hd. unfold floor_log2.
  pose proof (Z.log2_le_mono n d Hd).
  destruct (if (0 <=? _)%Z then _ else _); lia.
Qed.

Lemma round_fraction_nonneg n d :
  (0 < d)%Z -> fle (Finite 0) (round_fraction n d).
Proof.
  intros Hd. unfold round_fraction.
  destruct (Z.leb_spec n 0); [apply Qle_refl|].
  set (e := Z.max (floor_log2 n d - 52) (-1074)).
  destruct (Z.leb_spec 0 e).
  - destruct (Z.leb_spec (2 ^ 1024) (round_half_even n (d * 2 ^ e) * 2 ^ e));
      [exact I|].
    simpl. rewrite Qred_correct. unfold Qle. simpl.
    assert (0 < 2 ^ e)%Z by (apply Z.pow_pos_nonneg; lia).
    pose proof (round_half_even_nonneg n (d * 2 ^ e)). nia.
  - simpl. rewrite Qred_correct. unfold Qle. simpl.
    assert (0 < 2 ^ (- e))%Z by (apply Z.pow_pos_nonneg; lia).
    pose proof (round_half_even_nonneg (n * 2 ^ (- e)) d). nia.
Qed.

Lemma round_fraction_le_1 n d :
  (0 < d)%Z -> (n <= d)%Z -> fle (round_fraction n d) (Finite 1).
Proof.
  intros Hd Hn. unfold round_fraction.
  destruct (Z.leb_spec n 0); [simpl; unfold Qle; simpl; lia|].
  pose proof (floor_log2_le_0 n d ltac:(lia) Hn) as Hg.
  set (e := Z.max (floor_log2 n d - 52) (-1074)).
  assert (He : (e < 0)%Z) by (unfold e; lia).
  destruct (Z.leb_spec 0 e); [lia|].
  simpl. rewrite Qred_correct. unfold Qle. simpl.
  assert (Hp : (0 < 2 ^ (- e))%Z) by (apply Z.pow_pos_nonneg; lia).
  rewrite Z2Pos.id by exact Hp.
  pose proof (round_half_even_le (n * 2 ^ (- e)) d (2 ^ (- e)) Hd).
  nia.
Qed.

Lemma round_double_nonneg q : fle (Finite 0) (round_double q).
Proof. apply round_fraction_nonneg. reflexivity. Qed.

Lemma round_double_le_1 q : (q <= 1)%Q -> fle (round_double q) (Finite 1).
Proof.
  intros H. apply round_fraction_le_1; [reflexivity|].
  rewrite <- (Qred_correct q) in H. unfold Qle in H. simpl in H. lia.
Qed.

Lemma round_double_proper q q' :
  (q == q')%Q -> round_double q = round_double q'.
Proof.
  intros H. unfold round_double. rewrite (Qred_complete q q' H). reflexivity.
Qed.

(** ** The pattern *)

Lemma eat_app p : forall t rest r,
  eat p (t ++ rest) = Some r ->
  startswith t p = true
  \/ ((length t < length p)%nat /\ head rest = p !! length t).
Proof.
  induction p as [|x p IH]; intros t rest r H.
  - left. reflexivity.
  - destruct t as [|y t]; simpl in H.
    + right. split; [simpl; lia|].
      destruct rest as [|y rest]; [discriminate|].
      destruct (N.eqb_spec x y); [subst; reflexivity|discriminate].
    + destruct (N.eqb_spec x y) as [->|]; [|discriminate].
      destruct (IH _ _ _ H) as [Hs|[Hl Hh]].
      * left. simpl. rewrite N.eqb_refl. exact Hs.
      * right. split; [simpl; lia|exact Hh].
Qed.



(** The marker starts with a character that does not occur in it again, so
    an occurrence of the marker cannot overlap the next one. *)
Lemma marker_no_overlap k : (0 < k)%nat -> marker !! k <> Some 83.
Proof.
  intros Hk. do 7 (destruct k as [|k]; [first [lia|discriminate]|]).
  discriminate.
Qed.

Lemma re_search_skip pre rest :
  contains pre marker = false -> head rest = Some 83 ->
  re_search (pre ++ rest) = re_search rest.
Proof.
  intros H Hr. induction pre as [|c pre IH]; [reflexivity|].
  simpl in H. apply orb_false_elim in H as [H1 H2].
  change (re_search ((c :: pre) ++ rest))
    with (match match_here ((c :: pre) ++ rest) with
          | Some t => Some t
          | None => re_search (pre ++ rest)
          end).
  destruct (match_here ((c :: pre) ++ rest)) as [t|] eqn:E.
  - exfalso. unfold match_here in E.
    destruct (eat marker ((c :: pre) ++ rest)) as [r|] eqn:E'; [|discriminate].
    destruct (eat_app _ _ _ _ E') as [Hs|[_ Hh]].
    + simpl in Hs. congruence.
    + rewrite Hr in Hh. symmetry in Hh.
      apply (marker_no_overlap (length (c :: pre))); [simpl; lia|exact Hh].
  - apply IH, H2.
Qed.

Lemma span_digits_spec s : forall ip r,
  span_digits s = (ip, r) ->
  s = ip ++ r /\ forallb is_digit ip = true /\ no_digit_ahead r.
Proof.
  induction s as [|c s IH]; intros ip r H; simpl in H.
  - inversion H; subst. repeat split. intros c Hc. discriminate.
  - destruct (is_digit c) eqn:Ec.
    + destruct (span_digits s) as [ds r'] eqn:Es. inversion H; subst.
      destruct (IH _ _ eq_refl) as (-> & Hd & Hr).
      repeat split; [simpl; rewrite Ec; exact Hd|exact Hr].
    + inversion H; subst. repeat split.
      intros c' Hc'. simpl in Hc'. congruence.
Qed.

Lemma span_digits_app ip : forall r,
  forallb is_digit ip = true -> no_digit_ahead r ->
  span_digits (ip ++ r) = (ip, r).
Proof.
  induction ip as [|c ip IH]; intros r Hd Hr; simpl.
  - destruct r as [|c r]; [reflexivity|].
    simpl. rewrite (Hr c eq_refl). reflexivity.
  - simpl in Hd. apply andb_prop in Hd as [Hc Hd].
    rewrite Hc, (IH _ Hd Hr). reflexivity.
Qed.

Lemma no_digit_ahead_nil : no_digit_ahead [].
Proof. intros c H. discriminate. Qed.

Lemma no_digit_ahead_dot r : no_digit_ahead (dot :: r).
Proof. intros c H. simpl in H. inversion H; subst. reflexivity. Qed.

(** What the number alternative captures: digits, or digits, a dot and
    digits. *)
Lemma match_number_token s t :
  match_number s = Some t ->
  exists ip, ip <> [] /\ forallb is_digit ip = true
    /\ (t = ip
        \/ exists fp, fp <> [] /\ forallb is_digit fp = true
             /\ t = ip ++ dot :: fp).
Proof.
  unfold match_number. destruct (span_digits s) as [ip r] eqn:E.
  destruct (span_digits_spec _ _ _ E) as (_ & Hip & _).
  destruct ip as [|d ip]; [discriminate|].
  intros H. exists (d :: ip). split; [discriminate|]. split; [exact Hip|].
  destruct r as [|c r]; [left; congruence|].
  destruct (c =? dot); [|left; congruence].
  destruct (span_digits r) as [fp r'] eqn:E'.
  destruct (span_digits_spec _ _ _ E') as (_ & Hfp & _).
  destruct fp as [|f fp]; [left; congruence|].
  right. exists (f :: fp). split; [discriminate|]. split; [exact Hfp|].
  congruence.
Qed.

(** [float] does not raise on what the number alternative captures: the
    [except] branch of the extractor is never taken. *)
Lemma float_number_token s t :
  match_number s = Some t -> exists x, float t = Some x.
Proof.
  intros H. destruct (match_number_token _ _ H) as (ip & Hne & Hip & Ht).
  unfold float. destruct Ht as [->|(fp & Hfne & Hfp & ->)].
  - rewrite <- (app_nil_r ip).
    rewrite (span_digits_app _ _ Hip no_digit_ahead_nil).
    destruct ip; [congruence|]. eexists; reflexivity.
  - rewrite (span_digits_app _ _ Hip (no_digit_ahead_dot fp)).
    destruct ip as [|d ip]; [congruence|].
    unfold dot at 1. rewrite N.eqb_refl, Hfp.
    unfold pystr_eqb. rewrite bool_decide_false by exact Hfne.
    eexists; reflexivity.
Qed.

Lemma match_group_token s t :
  match_group s = Some t ->
  t = tok_True \/ t = tok_False \/ match_number s = Some t.
Proof.
  unfold match_group. destruct (startswith s tok_True); [left; congruence|].
  destruct (startswith s tok_False); [right; left; congruence|].
  right; right; assumption.
Qed.

Ltac group_token H :=
  apply match_group_token in H;
  destruct H as [H|[H|H]];
  [left; exact H | right; left; exact H | right; right; eexists; exact H].

Lemma match_ws_group_token s t :
  match_ws_group s = Some t ->
  t = tok_True \/ t = tok_False \/ exists s', match_number s' = Some t.
Proof.
  induction s as [|c s IH]; simpl; intros H.
  - group_token H.
  - destruct (is_space c).
    + destruct (match_ws_group s) as [t'|].
      * inversion H; subst. apply IH. reflexivity.
      * group_token H.
    + group_token H.
Qed.

Lemma re_search_token s t :
  re_search s = Some t ->
  t = tok_True \/ t = tok_False \/ exists s', match_number s' = Some t.
Proof.
  induction s as [|c s IH]; simpl.
  - intros H. discriminate.
  - destruct (match_here (c :: s)) as [t'|] eqn:E.
    + intros [= <-]. unfold match_here in E.
      destruct (eat marker (c :: s)); [|discriminate].
      apply match_ws_group_token in E. exact E.
    + exact IH.
Qed.

Lemma float_nonneg t x : float t = Some x -> fle (Finite 0) x.
Proof.
  unfold float. destruct (span_digits t) as [ip r].
  destruct ip as [|d ip]; [discriminate|].
  destruct r as [|c fp].
  - intros [= <-]. apply round_double_nonneg.
  - destruct (_ && _); [|discriminate]. intros [= <-].
    apply round_double_nonneg.
Qed.

Lemma extract_score_cases html :
  match re_search html with
  | None => extract_score_from_html html = None
  | Some t =>
      exists x, extract_score_from_html html = Some x /\ fle (Finite 0) x
        /\ (t = tok_True -> x = Finite 1) /\ (t = tok_False -> x = Finite 0)
        /\ (t <> tok_True -> t <> tok_False -> float t = Some x)
  end.
Proof.
  unfold extract_score_from_html.
  destruct (re_search html) as [t|] eqn:E; [|reflexivity].
  assert (H0 : fle (Finite 0) (Finite 0)) by apply Qle_refl.
  assert (H1 : fle (Finite 0) (Finite 1)) by (unfold fle, Qle; simpl; lia).
  destruct (re_search_token _ _ E) as [->|[->|(s' & Hs')]].
  - exists (Finite 1). repeat split; try discriminate; congruence.
  - exists (Finite 0). repeat split; try discriminate; congruence.
  - destruct (float_number_token _ _ Hs') as (x & Hx).
    unfold pystr_eqb. case_bool_decide as HT; simpl.
    + subst. exists (Finite 1). repeat split; try discriminate; congruence.
    + case_bool_decide as HF; simpl.
      * subst. exists (Finite 0). repeat split; try discriminate; congruence.
      * rewrite Hx. exists x. split; [reflexivity|].
        split; [exact (float_nonneg _ _ Hx)|]. repeat split; congruence.
Qed.

(** ** The three examples of a marker *)






(** ** Trimming *)

Lemma lstrip_spec s :
  exists l, s = l ++ lstrip s
    /\ Forall (fun c => is_space c = true) l
    /\ (forall c, head (lstrip s) = Some c -> is_space c = false).
Proof.
  induction s as [|c s (l & Hs & Hl & Hh)]; simpl.
  - exists []. repeat split; [constructor|discriminate].
  - destruct (is_space c) eqn:Ec.
    + exists (c :: l). repeat split; [simpl; congruence|constructor; assumption|exact Hh].
    + exists []. repeat split; [constructor|]. simpl. congruence.
Qed.

Lemma lstrip_spaces l x :
  Forall (fun c => is_space c = true) l -> lstrip (l ++ x) = lstrip x.
Proof.
  induction 1 as [|c l Hc _ IH]; [reflexivity|]. simpl. rewrite Hc. exact IH.
Qed.

Lemma lstrip_fixed s :
  (forall c, head s = Some c -> is_space c = false) -> lstrip s = s.
Proof.
  destruct s as [|c s]; [reflexivity|]. intros H. simpl.
  rewrite (H c eq_refl). reflexivity.
Qed.

Lemma rstrip_spec s :
  exists r, s = rstrip s ++ r
    /\ Forall (fun c => is_space c = true) r
    /\ (forall c, last (rstrip s) = Some c -> is_space c = false).
Proof.
  unfold rstrip. destruct (lstrip_spec (reverse s)) as (l & Hs & Hl & Hh).
  exists (reverse l). repeat split.
  - rewrite <- reverse_app, <- Hs, reverse_involutive. reflexivity.
  - apply Forall_reverse. exact Hl.
  - intros c. rewrite last_reverse. apply Hh.
Qed.

Lemma strip_trimmed s : trimmed_to s (strip s).
Proof.
  unfold strip. destruct (lstrip_spec s) as (l & Hs & Hl & Hh).
  destruct (rstrip_spec (lstrip s)) as (r & Hs' & Hr & Hlast).
  exists l, r. repeat split; try assumption.
  - rewrite <- Hs'. exact Hs.
  - intros c Hc. apply Hh. rewrite Hs'.
    destruct (rstrip (lstrip s)); [discriminate|exact Hc].
Qed.

Lemma trimmed_unique s t : trimmed_to s t -> t = strip s.
Proof.
  intros (l & r & -> & Hl & Hr & Hh & Hlast). unfold strip.
  rewrite (lstrip_spaces _ _ Hl).
  destruct t as [|c t].
  - simpl. rewrite <- (app_nil_r r), (lstrip_spaces _ _ Hr). reflexivity.
  - rewrite (lstrip_fixed ((c :: t) ++ r)) by exact Hh.
    unfold rstrip. rewrite reverse_app, lstrip_spaces by (apply Forall_reverse; exact Hr).
    rewrite lstrip_fixed, reverse_involutive; [reflexivity|].
    intros x. rewrite head_reverse. apply Hlast.
Qed.

(** ** More on the loop *)

Lemma zip_take (hs : list pystr) : forall (cs : list Convo) n,
  (Nat.min (length hs) (length cs) <= n)%nat ->
  zip (take n hs) (take n cs) = zip hs cs.
Proof.
  induction hs as [|h hs IH]; intros [|c cs] [|n] H; simpl in *;
    try reflexivity; try lia.
  rewrite IH by lia. reflexivity.
Qed.

Lemma foldl_step_skip l : forall st,
  foldl step (skip st) l = skip (foldl step st l).
Proof.
  induction l as [|p l IH]; intros st; [reflexivity|].
  simpl. rewrite <- IH. f_equal. unfold step.
  destruct (outcome_of p.1 p.2); reflexivity.
Qed.

(** ** The mean *)

Lemma sum_of_Qsum qs : sum_of qs = Qsum qs.
Proof. induction qs as [|q qs IH]; [reflexivity|]. simpl. rewrite IH. reflexivity. Qed.

Lemma mapM_exact_ratio_finite qs :
  mapM exact_ratio (Finite <$> qs) = Some qs.
Proof.
  induction qs as [|q qs IH]; [reflexivity|].
  cbn [fmap list_fmap mapM]. simpl. rewrite IH. reflexivity.
Qed.

Lemma mapM_exact_ratio_infinite xs :
  Infinity ∈ xs -> mapM exact_ratio xs = None.
Proof.
  induction xs as [|x xs IH]; intros H; [inversion H|].
  apply elem_of_cons in H as [<-|H]; [reflexivity|].
  cbn [mapM]. rewrite (IH H). destruct (exact_ratio x); reflexivity.
Qed.

Lemma mean_finite qs :
  qs <> [] ->
  mean (Finite <$> qs) = Some (round_double (arithmetic_mean qs)).
Proof.
  intros Hne. destruct qs as [|q qs]; [congruence|].
  unfold mean. cbn [fmap list_fmap]. fold (Finite <$> qs).
  change (Finite q :: (Finite <$> qs)) with (Finite <$> (q :: qs)).
  rewrite mapM_exact_ratio_finite, length_fmap.
  unfold arithmetic_mean. rewrite <- (sum_of_Qsum (q :: qs)). reflexivity.
Qed.

Lemma mean_infinite xs : Infinity ∈ xs -> mean xs = Some Infinity.
Proof.
  intros H. unfold mean. rewrite (mapM_exact_ratio_infinite xs H).
  destruct xs; [inversion H|reflexivity].
Qed.

(** ** Conversations that are always skipped *)

Lemma lstrip_all_space s :
  Forall (fun c => is_space c = true) s -> lstrip s = [].
Proof.
  intros H. rewrite <- (app_nil_r s). rewrite (lstrip_spaces _ _ H). reflexivity.
Qed.

Lemma lstrip_keeps_tail a : forall b c,
  head b = Some c -> is_space c = false ->
  exists a', lstrip (a ++ b) = a' ++ b.
Proof.
  induction a as [|x a IH]; intros b c Hb Hc.
  - exists []. simpl. apply lstrip_fixed. intros c' Hc'. congruence.
  - simpl. destruct (is_space x).
    + apply (IH b c Hb Hc).
    + exists (x :: a). reflexivity.
Qed.

Lemma rstrip_keeps_front p s c :
  last p = Some c -> is_space c = false ->
  exists s', rstrip (p ++ s) = p ++ s'.
Proof.
  intros Hp Hc. unfold rstrip. rewrite reverse_app.
  destruct (lstrip_keeps_tail (reverse s) (reverse p) c) as (a' & Ha);
    [rewrite head_reverse; exact Hp|exact Hc|].
  exists (reverse a'). rewrite Ha, reverse_app, reverse_involutive. reflexivity.
Qed.

Lemma startswith_app p : forall s, startswith (p ++ s) p = true.
Proof.
  induction p as [|x p IH]; intros s; [reflexivity|].
  simpl. rewrite N.eqb_refl. apply IH.
Qed.

Lemma startswith_split p : forall s,
  startswith s p = true -> exists r, s = p ++ r.
Proof.
  induction p as [|x p IH]; intros s H.
  - exists s. reflexivity.
  - destruct s as [|y s]; [discriminate|]. simpl in H.
    apply andb_prop in H as [Hxy Hs]. apply N.eqb_eq in Hxy. subst y.
    destruct (IH _ Hs) as (r & ->). exists r. reflexivity.
Qed.

Lemma strip_placeholder s :
  exists s', strip (placeholder ++ s) = placeholder ++ s'.
Proof.
  unfold strip. rewrite lstrip_fixed.
  - apply (rstrip_keeps_front placeholder s 41); reflexivity.
  - intros c Hc. inversion Hc; subst. reflexivity.
Qed.

Lemma listed_as_skipped_flagged convo :
  listed_as_skipped convo -> is_empty_assistant convo = true.
Proof.
  intros [->|(m & Hm & Hcase)]; [reflexivity|].
  unfold is_empty_assistant. rewrite Hm.
  destruct Hcase as [Hsp|Hst].
  - unfold strip. rewrite (lstrip_all_space _ Hsp). reflexivity.
  - destruct (startswith_split _ _ Hst) as (r & ->).
    destruct (strip_placeholder r) as (s' & ->).
    rewrite startswith_app. reflexivity.
Qed.

(** ** The whole program *)

Section MainFacts.

Variable render : list pystr -> pystr.
Variable fmt : pyfloat -> pystr.

Lemma main_loaded w args path data :
  resolve_input w args = inr path ->
  json_load w path = Some data ->
  main render fmt w args = process render fmt w path data.
Proof. intros Hr Hl. unfold main. rewrite Hr, Hl. reflexivity. Qed.

Lemma resolve_input_fails w args :
  truthy (arg_file args) = false ->
  arg_latest args = false \/ tmp_glob w = [] ->
  resolve_input w args = inl msg_must_provide
  \/ resolve_input w args = inl msg_no_files.
Proof.
  intros Hf [Hl|Hg]; unfold resolve_input; rewrite Hf.
  - rewrite Hl. simpl. rewrite Hf. left. reflexivity.
  - destruct (arg_latest args); simpl.
    + rewrite Hg. right. reflexivity.
    + rewrite Hf. left. reflexivity.
Qed.

End MainFacts.

(** ** What the pattern accepts *)

Lemma match_ws_group_spaces ws s t :
  Forall (fun c => is_space c = true) ws ->
  match_ws_group s = Some t -> match_ws_group (ws ++ s) = Some t.
Proof.
  intros Hws Hs. induction Hws as [|c ws Hc _ IH]; [exact Hs|].
  simpl. rewrite Hc, IH. reflexivity.
Qed.

Lemma re_search_here s t : match_here s = Some t -> re_search s = Some t.
Proof.
  intros H. destruct s; cbn [re_search]; rewrite H; reflexivity.
Qed.

Lemma re_search_marked pre ws s t :
  contains pre marker = false ->
  Forall (fun c => is_space c = true) ws ->
  match_ws_group s = Some t ->
  re_search (pre ++ marker ++ ws ++ s) = Some t.
Proof.
  intros Hpre Hws Hs.
  rewrite (re_search_skip pre (marker ++ ws ++ s) Hpre eq_refl).
  apply re_search_here.
  change (match_here (marker ++ ws ++ s)) with (match_ws_group (ws ++ s)).
  apply match_ws_group_spaces; assumption.
Qed.

Lemma digit_not_space c : is_digit c = true -> is_space c = false.
Proof.
  unfold is_digit, is_space. intros H. apply andb_prop in H as [H1 H2].
  apply N.leb_le in H1, H2.
  repeat match goal with
  | |- context [?a <=? ?b] => destruct (N.leb_spec a b); try lia
  | |- context [?a =? ?b] => destruct (N.eqb_spec a b); try lia
  end; reflexivity.
Qed.

Lemma digits_not_word ip rest w0 w :
  is_digit w0 = false -> ip <> [] -> forallb is_digit ip = true ->
  startswith (ip ++ rest) (w0 :: w) = false /\ ip ++ rest <> w0 :: w.
Proof.
  intros Hw Hne Hd. destruct ip as [|d ip]; [congruence|].
  simpl in Hd. apply andb_prop in Hd as [Hd _]. simpl. split.
  - destruct (N.eqb_spec w0 d); [subst; congruence|reflexivity].
  - intros [= -> _]. congruence.
Qed.

Lemma match_ws_group_number ip rest :
  ip <> [] -> forallb is_digit ip = true ->
  match_ws_group (ip ++ rest) = match_number (ip ++ rest).
Proof.
  intros Hne Hd.
  destruct (digits_not_word ip rest 84 (lit "rue") eq_refl Hne Hd) as [HT _].
  destruct (digits_not_word ip rest 70 (lit "alse") eq_refl Hne Hd) as [HF _].
  assert (Hg : match_group (ip ++ rest) = match_number (ip ++ rest)).
  { unfold match_group.
    change tok_True with (84 :: lit "rue"). change tok_False with (70 :: lit "alse").
    rewrite HT, HF. reflexivity. }
  destruct ip as [|d ip]; [congruence|].
  simpl in Hd. apply andb_prop in Hd as [Hd _].
  change (match_ws_group ((d :: ip) ++ rest))
    with (if is_space d
          then match match_ws_group (ip ++ rest) with
               | Some t => Some t
               | None => match_group ((d :: ip) ++ rest)
               end
          else match_group ((d :: ip) ++ rest)).
  rewrite (digit_not_space d Hd). exact Hg.
Qed.

Lemma match_number_decimal ip fp suf :
  ip <> [] -> forallb is_digit ip = true ->
  fp <> [] -> forallb is_digit fp = true -> no_digit_ahead suf ->
  match_number (ip ++ dot :: fp ++ suf) = Some (ip ++ dot :: fp).
Proof.
  intros Hne Hd Hfne Hfd Hsuf. unfold match_number.
  rewrite (span_digits_app ip _ Hd (no_digit_ahead_dot _)).
  destruct ip as [|d ip]; [congruence|].
  rewrite N.eqb_refl, (span_digits_app fp suf Hfd Hsuf).
  destruct fp; [congruence|reflexivity].
Qed.

Lemma match_number_integer ip suf :
  ip <> [] -> forallb is_digit ip = true -> ends_integer suf ->
  match_number (ip ++ suf) = Some ip.
Proof.
  intros Hne Hd [Hsuf Hdot]. unfold match_number.
  rewrite (span_digits_app ip suf Hd Hsuf).
  destruct ip as [|d ip]; [congruence|].
  destruct suf as [|c r]; [reflexivity|].
  destruct (N.eqb_spec c dot) as [->|]; [|reflexivity].
  pose proof (span_digits_app [] r eq_refl (Hdot r eq_refl)) as E.
  cbn [app] in E. rewrite E. reflexivity.
Qed.

Lemma float_decimal ip fp :
  ip <> [] -> forallb is_digit ip = true ->
  fp <> [] -> forallb is_digit fp = true ->
  float (ip ++ dot :: fp)
  = Some (round_double (Z.of_N (digits_value (ip ++ fp))
                        # Pos.pow 10 (Pos.of_nat (length fp)))).
Proof.
  intros Hne Hd Hfne Hfd. unfold float.
  rewrite (span_digits_app ip _ Hd (no_digit_ahead_dot fp)).
  destruct ip as [|d ip]; [congruence|].
  rewrite N.eqb_refl, Hfd. unfold pystr_eqb.
  rewrite bool_decide_false by exact Hfne. reflexivity.
Qed.

Lemma float_integer ip :
  ip <> [] -> forallb is_digit ip = true ->
  float ip = Some (round_double (Z.of_N (digits_value ip) # 1)).
Proof.
  intros Hne Hd. unfold float. rewrite <- (app_nil_r ip) at 1.
  rewrite (span_digits_app ip [] Hd no_digit_ahead_nil).
  destruct ip; [congruence|reflexivity].
Qed.

Lemma digits_fold fp : forall a,
  fold_left (fun acc d => 10 * acc + (d - 48)) fp a
  = a * 10 ^ N.of_nat (length fp) + digits_value fp.
Proof.
  unfold digits_value. induction fp as [|d fp IH]; intros a.
  - simpl. lia.
  - cbn [fold_left length]. rewrite IH, (IH (10 * 0 + (d - 48))).
    rewrite Nat2N.inj_succ, N.pow_succ_r'. lia.
Qed.

Lemma digits_value_app ip fp :
  digits_value (ip ++ fp)
  = digits_value ip * 10 ^ N.of_nat (length fp) + digits_value fp.
Proof.
  unfold digits_value at 1. rewrite fold_left_app. apply digits_fold.
Qed.

Lemma pow10_N_Z k : Z.of_N (10 ^ N.of_nat k) = (10 ^ Z.of_nat k)%Z.
Proof. rewrite N2Z.inj_pow, nat_N_Z. reflexivity. Qed.

Lemma numeral_digits_value ds : numeral ds = Z.of_N (digits_value ds).
Proof.
  induction ds as [|d ds IH]; [reflexivity|].
  cbn [numeral]. rewrite IH. unfold digits_value at 2. cbn [fold_left].
  rewrite digits_fold, N2Z.inj_add, N2Z.inj_mul, pow10_N_Z.
  replace (10 * 0 + (d - 48)) with (d - 48) by lia. reflexivity.
Qed.

Lemma pow10_pos n :
  n <> 0%nat -> Z.pos (Pos.pow 10 (Pos.of_nat n)) = (10 ^ Z.of_nat n)%Z.
Proof.
  intros Hn. rewrite Pos2Z.inj_pow. f_equal.
  destruct n as [|n]; [congruence|]. lia.
Qed.

Lemma decimal_value_correct ip fp :
  fp <> [] ->
  (Z.of_N (digits_value (ip ++ fp)) # Pos.pow 10 (Pos.of_nat (length fp))
   == decimal_value ip fp)%Q.
Proof.
  intros Hfp. unfold decimal_value.
  assert (Hp : (10 ^ Z.of_nat (length fp))%Z
               = Z.pos (Pos.pow 10 (Pos.of_nat (length fp)))).
  { symmetry. apply pow10_pos. destruct fp; [congruence|discriminate]. }
  rewrite Hp, <- Qmake_Qdiv, !numeral_digits_value.
  rewrite digits_value_app, N2Z.inj_add, N2Z.inj_mul, pow10_N_Z, Hp.
  unfold Qeq, Qplus, inject_Z. cbn [Qnum Qden]. rewrite Pos2Z.inj_mul. lia.
Qed.

Lemma extract_of_number html t x :
  re_search html = Some t -> t <> tok_True -> t <> tok_False ->
  float t = Some x -> extract_score_from_html html = Some x.
Proof.
  intros Hs HT HF Hx. unfold extract_score_from_html, pystr_eqb.
  rewrite Hs, !bool_decide_false by assumption. simpl. rewrite Hx.
  reflexivity.
Qed.

Lemma float_integer_value ip :
  ip <> [] -> forallb is_digit ip = true ->
  float ip = Some (round_double (inject_Z (numeral ip))).
Proof.
  intros Hne Hd. rewrite (float_integer ip Hne Hd), numeral_digits_value.
  reflexivity.
Qed.

Lemma float_decimal_value ip fp :
  ip <> [] -> forallb is_digit ip = true ->
  fp <> [] -> forallb is_digit fp = true ->
  float (ip ++ dot :: fp) = Some (round_double (decimal_value ip fp)).
Proof.
  intros Hne Hd Hfne Hfd. rewrite (float_decimal ip fp Hne Hd Hfne Hfd).
  f_equal. apply round_double_proper, decimal_value_correct, Hfne.
Qed.

Lemma eat_split p : forall s r, eat p s = Some r -> s = p ++ r.
Proof.
  induction p as [|x p IH]; intros s r H; simpl in H.
  - inversion H. reflexivity.
  - destruct s as [|y s]; [discriminate|].
    destruct (N.eqb_spec x y) as [->|]; [|discriminate].
    rewrite (IH _ _ H). reflexivity.
Qed.

Lemma match_number_starts s t :
  match_number s = Some t -> exists d r, s = d :: r /\ is_digit d = true.
Proof.
  unfold match_number. destruct (span_digits s) as [ip r] eqn:E.
  destruct (span_digits_spec _ _ _ E) as (-> & Hip & _).
  destruct ip as [|d ip]; [discriminate|]. intros _.
  simpl in Hip. apply andb_prop in Hip as [Hd _].
  exists d, (ip ++ r). split; [reflexivity|exact Hd].
Qed.

Lemma match_group_starts s t : match_group s = Some t -> starts_token s.
Proof.
  unfold match_group.
  destruct (startswith s tok_True) eqn:ET.
  { intros _. left. apply startswith_split, ET. }
  destruct (startswith s tok_False) eqn:EF.
  { intros _. right. left. apply startswith_split, EF. }
  intros H. right. right. apply (match_number_starts s t H).
Qed.

Lemma match_ws_group_split s : forall t,
  match_ws_group s = Some t ->
  exists ws rest, s = ws ++ rest
    /\ Forall (fun c => is_space c = true) ws /\ starts_token rest.
Proof.
  induction s as [|c s IH]; intros t H; simpl in H.
  - exists [], []. split; [reflexivity|]. split; [constructor|].
    apply (match_group_starts _ _ H).
  - destruct (is_space c) eqn:Ec.
    + destruct (match_ws_group s) as [t'|].
      * destruct (IH t' eq_refl) as (ws & rest & -> & Hws & Hr).
        exists (c :: ws), rest. split; [reflexivity|].
        split; [constructor; assumption|exact Hr].
      * exists [], (c :: s). split; [reflexivity|]. split; [constructor|].
        apply (match_group_starts _ _ H).
    + exists [], (c :: s). split; [reflexivity|]. split; [constructor|].
      apply (match_group_starts _ _ H).
Qed.

Lemma re_search_has_score html : forall t,
  re_search html = Some t -> has_score html.
Proof.
  induction html as [|c html IH]; intros t H.
  - discriminate.
  - cbn [re_search] in H.
    destruct (match_here (c :: html)) as [t'|] eqn:E.
    + unfold match_here in E.
      destruct (eat marker (c :: html)) as [r|] eqn:Ee; [|discriminate].
      apply eat_split in Ee.
      destruct (match_ws_group_split _ _ E) as (ws & rest & -> & Hws & Hr).
      exists [], ws, rest. split; [exact Ee|]. split; assumption.
    + destruct (IH t H) as (pre & ws & rest & -> & Hws & Hr).
      exists (c :: pre), ws, rest. split; [reflexivity|]. split; assumption.
Qed.

Lemma match_number_digit d r :
  is_digit d = true -> is_Some (match_number (d :: r)).
Proof.
  intros Hd. unfold match_number. simpl. rewrite Hd.
  destruct (span_digits r) as [ds r'].
  destruct r' as [|c r'']; [eexists; reflexivity|].
  destruct (c =? dot); [|eexists; reflexivity].
  destruct (span_digits r'') as [[|f fp] r3]; eexists; reflexivity.
Qed.

Lemma starts_token_matches rest :
  starts_token rest -> is_Some (match_ws_group rest).
Proof.
  intros [(r & ->)|[(r & ->)|(d & r & -> & Hd)]].
  - exists tok_True. reflexivity.
  - exists tok_False. reflexivity.
  - change (d :: r) with ([d] ++ r).
    rewrite (match_ws_group_number [d] r) by
      (try discriminate; simpl; rewrite Hd; reflexivity).
    apply (match_number_digit d r Hd).
Qed.

Lemma re_search_after pre : forall s,
  is_Some (match_here s) -> is_Some (re_search (pre ++ s)).
Proof.
  induction pre as [|c pre IH]; intros s [t Ht].
  - exists t. apply re_search_here, Ht.
  - cbn [app re_search].
    destruct (match_here (c :: pre ++ s)); [eexists; reflexivity|].
    apply IH. exists t. exact Ht.
Qed.

Lemma has_score_found html : has_score html -> is_Some (re_search html).
Proof.
  intros (pre & ws & rest & -> & Hws & Hr). apply re_search_after.
  destruct (starts_token_matches rest Hr) as (t & Ht).
  exists t.
  change (match_here (lit "Score:" ++ ws ++ rest))
    with (match_ws_group (ws ++ rest)).
  apply match_ws_group_spaces; assumption.
Qed.

Lemma extract_None_iff html :
  extract_score_from_html html = None <-> ~ has_score html.
Proof.
  pose proof (extract_score_cases html) as Hc. split.
  - intros Hn Hs. destruct (has_score_found html Hs) as (t & Ht).
    rewrite Ht in Hc. destruct Hc as (x & Hx & _). congruence.
  - intros Hn. destruct (re_search html) as [t|] eqn:E; [|exact Hc].
    contradiction Hn. apply (re_search_has_score html t E).
Qed.

Lemma extract_score_by_token html :
  (re_search html = None /\ extract_score_from_html html = None)
  \/ (re_search html = Some (lit "True")
      /\ extract_score_from_html html = Some (Finite 1))
  \/ (re_search html = Some (lit "False")
      /\ extract_score_from_html html = Some (Finite 0))
  \/ (exists ip, ip <> [] /\ forallb is_digit ip = true
        /\ re_search html = Some ip
        /\ extract_score_from_html html
           = Some (round_double (inject_Z (numeral ip))))
  \/ (exists ip fp, ip <> [] /\ forallb is_digit ip = true
        /\ fp <> [] /\ forallb is_digit fp = true
        /\ re_search html = Some (ip ++ dot :: fp)
        /\ extract_score_from_html html
           = Some (round_double (decimal_value ip fp))).
Proof.
  pose proof (extract_score_cases html) as Hc.
  destruct (re_search html) as [t|] eqn:E; [|left; split; [reflexivity|exact Hc]].
  destruct Hc as (x & Hx & _ & HT & HF & Hnum). right.
  destruct (re_search_token _ _ E) as [->|[->|(s' & Hs')]].
  - left. split; [reflexivity|]. rewrite Hx, (HT eq_refl). reflexivity.
  - right. left. split; [reflexivity|]. rewrite Hx, (HF eq_refl). reflexivity.
  - right. right.
    destruct (match_number_token _ _ Hs') as (ip & Hne & Hd & Ht).
    destruct Ht as [->|(fp & Hfne & Hfd & ->)].
    + left. exists ip. split; [exact Hne|]. split; [exact Hd|].
      split; [reflexivity|]. rewrite Hx. f_equal.
      assert (Hf : float ip = Some x).
      { apply Hnum; rewrite <- (app_nil_r ip).
        - apply (digits_not_word ip [] 84 (lit "rue") eq_refl Hne Hd).
        - apply (digits_not_word ip [] 70 (lit "alse") eq_refl Hne Hd). }
      rewrite (float_integer_value ip Hne Hd) in Hf. congruence.
    + right. exists ip, fp. repeat (split; [assumption|]).
      split; [reflexivity|]. rewrite Hx. f_equal.
      assert (Hf : float (ip ++ dot :: fp) = Some x).
      { apply Hnum.
        - apply (digits_not_word ip (dot :: fp) 84 (lit "rue") eq_refl Hne Hd).
        - apply (digits_not_word ip (dot :: fp) 70 (lit "alse") eq_refl Hne Hd). }
      rewrite (float_decimal_value ip fp Hne Hd Hfne Hfd) in Hf. congruence.
Qed.

Lemma or_empty_Some s : or_empty (Some s) = s.
Proof. destruct s; reflexivity. Qed.

(** * The claims *)

(** C1. After the aggregation loop, kept plus skipped equals
    [min(len(htmls), len(convos))]: the loop ends normally, the kept examples
    are counted by the kept scores, the skipped ones are all the others among
    the first [min] pairs, and the printed summary carries these counts. *)
Theorem kept_plus_skipped_is_min (render : list pystr -> pystr)
    (fmt : pyfloat -> pystr) (w : World) (path : pystr) (data : Data) :
  exists st s,
    aggregate (get_htmls data) (get_convos data) = Some st
    /\ length (kept_scores st)
       = length (filter (fun p => is_kept p)
                   (zip (get_htmls data) (get_convos data)))
    /\ skipped st
       = length (filter (fun p => ¬ is_kept p)
                   (zip (get_htmls data) (get_convos data)))
    /\ (length (kept_scores st) + skipped st
        = Nat.min (length (get_htmls data)) (length (get_convos data)))%nat
    /\ printed_summary (process render fmt w path data) = Some s
    /\ (kept_examples s + skipped_examples s
        = Nat.min (length (get_htmls data)) (length (get_convos data)))%nat.
Proof.
  destruct (process_summary render fmt w path data) as (st & acc & Ha & _ & Hs).
  destruct (aggregate_total (get_htmls data) (get_convos data))
    as (st' & Ha' & Hk & _ & Hsk).
  assert (st' = st) by congruence. subst st'.
  pose proof (aggregate_counts _ _ _ Ha) as Hc.
  eexists st, _. split; [exact Ha|].
  split; [rewrite Hk; apply length_omap_outcome|].
  split; [exact Hsk|]. split; [exact Hc|]. split; [exact Hs|exact Hc].
Qed.

(** C2. The reported accuracy is the arithmetic mean of exactly the scores of
    the kept examples, as the double it is: the double nearest to their sum
    over their number, [inf] when a kept score is [inf]; and it is 0.0 when no
    example is kept. The summary is printed in every case. *)
Theorem recomputed_accuracy_is_mean (render : list pystr -> pystr)
    (fmt : pyfloat -> pystr) (w : World) (path : pystr) (data : Data) :
  exists s,
    printed_summary (process render fmt w path data) = Some s
    /\ kept_examples s
       = length (scores_of_kept (get_htmls data) (get_convos data))
    /\ (kept_examples s = 0%nat ->
        recomputed_accuracy_excluding_empty s = Finite 0)
    /\ (forall qs,
          scores_of_kept (get_htmls data) (get_convos data) = Finite <$> qs ->
          qs <> [] ->
          recomputed_accuracy_excluding_empty s
          = round_double (arithmetic_mean qs))
    /\ (Infinity ∈ scores_of_kept (get_htmls data) (get_convos data) ->
        recomputed_accuracy_excluding_empty s = Infinity).
Proof.
  destruct (process_summary render fmt w path data)
    as (st & acc & Ha & Hacc & Hs).
  destruct (aggregate_total (get_htmls data) (get_convos data))
    as (st' & Ha' & Hk & _).
  assert (st' = st) by congruence. subst st'.
  eexists. split; [exact Hs|]. simpl. rewrite Hk in *.
  split; [reflexivity|]. split; [|split].
  - intros Hz. destruct Hacc as [[_ E]|[Hn _]]; [exact E|].
    destruct (scores_of_kept _ _); [congruence|discriminate].
  - intros qs Hqs Hne. rewrite Hqs in Hacc.
    destruct Hacc as [[E _]|[_ Hm]].
    + destruct qs; [congruence|discriminate].
    + rewrite (mean_finite qs Hne) in Hm. congruence.
  - intros Hin. destruct Hacc as [[E _]|[_ Hm]].
    + rewrite E in Hin. inversion Hin.
    + rewrite (mean_infinite _ Hin) in Hm. congruence.
Qed.

(** Two right answers out of three: the accuracy is the double nearest to
    two thirds. *)
Lemma recomputed_accuracy_is_mean_witness :
  exists s,
    printed_summary
      (process plain_render plain_format sample_world sample_path thirds_data)
    = Some s
    /\ kept_examples s = 3%nat
    /\ recomputed_accuracy_excluding_empty s
       = Finite (6004799503160661 # 9007199254740992).
Proof.
  destruct (recomputed_accuracy_is_mean plain_render plain_format sample_world
              sample_path thirds_data) as (s & Hs & Hk & _ & Hmean & _).
  exists s. split; [exact Hs|]. split; [rewrite Hk; reflexivity|].
  rewrite (Hmean [1; 1; 0]%Q); [vm_compute; reflexivity|reflexivity|discriminate].
Defined.

(** C3, as stated, fails: a decimal token above one is returned as it is. *)
Lemma score_above_one :
  extract_score_from_html (lit "<p>Score: 5</p>") = Some (Finite 5)
  /\ ~ (fle (Finite 0) (Finite 5) /\ fle (Finite 5) (Finite 1)).
Proof.
  split; [vm_compute; reflexivity|]. intros [_ H]. vm_compute in H.
  apply H. reflexivity.
Qed.

(** C3, amended. The extractor returns no score exactly when the snippet
    nowhere shows the marker, white space and the start of a token; otherwise
    a score that is at least 0.0: 1.0 for [True], 0.0 for [False], and for a
    decimal token the double nearest to the number it writes. *)
Theorem extract_score_values (html : pystr) :
  (extract_score_from_html html = None <-> ~ has_score html)
  /\ (forall x, extract_score_from_html html = Some x -> fle (Finite 0) x)
  /\ ((re_search html = None /\ extract_score_from_html html = None)
      \/ (re_search html = Some (lit "True")
          /\ extract_score_from_html html = Some (Finite 1))
      \/ (re_search html = Some (lit "False")
          /\ extract_score_from_html html = Some (Finite 0))
      \/ (exists ip, ip <> [] /\ forallb is_digit ip = true
            /\ re_search html = Some ip
            /\ extract_score_from_html html
               = Some (round_double (inject_Z (numeral ip))))
      \/ (exists ip fp, ip <> [] /\ forallb is_digit ip = true
            /\ fp <> [] /\ forallb is_digit fp = true
            /\ re_search html = Some (ip ++ dot :: fp)
            /\ extract_score_from_html html
               = Some (round_double (decimal_value ip fp)))).
Proof.
  split; [apply extract_None_iff|]. split; [|apply extract_score_by_token].
  intros x Hx. pose proof (extract_score_cases html) as Hc.
  destruct (re_search html); [|congruence].
  destruct Hc as (x' & Hx' & Hpos & _). congruence.
Qed.

(** The token [2.5] gives two and a half, which is above one. *)
Lemma extract_score_values_witness :
  extract_score_from_html (lit "<p>Score: 2.5</p>") = Some (Finite (5 # 2))
  /\ fle (Finite 0) (Finite (5 # 2)).
Proof.
  destruct (extract_score_values (lit "<p>Score: 2.5</p>"))
    as (_ & Hpos & Hcases).
  assert (H : extract_score_from_html (lit "<p>Score: 2.5</p>")
              = Some (Finite (5 # 2))).
  { destruct Hcases as [[Hs _]|[[Hs _]|[[Hs _]|[(ip & Hne & Hd & Hs & Hx)
      |(ip & fp & Hne & Hd & _ & _ & Hs & Hx)]]]];
      try (vm_compute in Hs; discriminate).
    - vm_compute in Hs. injection Hs as <-. vm_compute in Hd. discriminate.
    - rewrite Hx. vm_compute in Hs. injection Hs as Hs.
      destruct ip as [|a ip]; [congruence|].
      simpl in Hs. injection Hs as <- Hs.
      destruct ip as [|b ip]; simpl in Hs.
      + injection Hs as <-. vm_compute. reflexivity.
      + injection Hs as <- Hs. simpl in Hd. discriminate. }
  split; [exact H|]. apply Hpos, H.
Defined.

(** C4. The detector answers "empty" exactly when the conversation has no
    message, or the content of its last message (a missing one counts as the
    empty string), trimmed of surrounding white space, is the empty string or
    starts with [No response (bad request)]; in every other case it answers
    "not empty". *)
Theorem is_empty_assistant_exactly (convo : Convo) :
  is_empty_assistant convo = true
  <-> convo = []
      \/ exists msgs m, convo = msgs ++ [m]
           /\ (content m = None
               \/ exists s t, content m = Some s /\ trimmed_to s t
                    /\ (t = []
                        \/ exists r, t = lit "No response (bad request)" ++ r)).
Proof.
  unfold is_empty_assistant. destruct (last convo) as [m|] eqn:E.
  - apply last_Some in E as (msgs & ->). split.
    + intros H. right. exists msgs, m. split; [reflexivity|].
      destruct (content m) as [s|]; [|left; reflexivity].
      right. exists s, (strip s). split; [reflexivity|].
      rewrite or_empty_Some in H. split; [apply strip_trimmed|].
      destruct (strip s) as [|c t] eqn:Es; [left; reflexivity|].
      right. apply startswith_split.
      change (lit "No response (bad request)") with placeholder.
      destruct (startswith (c :: t) placeholder); [reflexivity|discriminate].
    + intros [Hnil|(msgs' & m' & Hm & Hcase)].
      { destruct msgs; discriminate. }
      apply app_inj_tail in Hm as [_ <-].
      destruct Hcase as [->|(s & t & -> & Htrim & Ht)]; [reflexivity|].
      rewrite or_empty_Some. apply trimmed_unique in Htrim. rewrite <- Htrim.
      destruct Ht as [->|(r & ->)]; [reflexivity|].
      change (lit "No response (bad request)") with placeholder.
      rewrite startswith_app. reflexivity.
  - split; [|reflexivity]. intros _. left.
    destruct convo as [|m convo]; [reflexivity|].
    apply last_None in E. discriminate.
Qed.

(** A real answer is not empty; the placeholder between spaces is. *)
Lemma is_empty_assistant_exactly_witness :
  is_empty_assistant [say "Paris"] = false
  /\ is_empty_assistant
       [say "hello"; say "  No response (bad request): 400 "] = true.
Proof.
  split.
  - destruct (is_empty_assistant [say "Paris"]) eqn:E; [|reflexivity].
    apply (is_empty_assistant_exactly [say "Paris"]) in E.
    destruct E as [E|(msgs & m & Hm & Hcase)]; [discriminate|].
    change [say "Paris"] with ([] ++ [say "Paris"]) in Hm.
    apply app_inj_tail in Hm as [_ <-].
    destruct Hcase as [Hc|(s & t & Hs & Htrim & Ht)]; [discriminate|].
    injection Hs as <-. apply trimmed_unique in Htrim.
    vm_compute in Htrim. subst t.
    destruct Ht as [Ht|(r & Ht)]; discriminate.
  - apply (is_empty_assistant_exactly
             [say "hello"; say "  No response (bad request): 400 "]).
    right. exists [say "hello"], (say "  No response (bad request): 400 ").
    split; [reflexivity|]. right.
    exists (lit "  No response (bad request): 400 "),
           (lit "No response (bad request): 400").
    split; [reflexivity|]. split; [|right; exists (lit ": 400"); reflexivity].
    exists (lit "  "), (lit " ").
    split; [reflexivity|].
    split; [repeat constructor|]. split; [repeat constructor|].
    split; intros c Hc; inversion Hc; reflexivity.
Defined.



(** C6. An example whose conversation the detector flags (so also one with
    no message, or with a last content that is empty, white space only, or
    starts with the placeholder) is counted as skipped and is never kept,
    whatever its HTML snippet is: the run gives what it gives without that
    example, with one more skipped. *)
Theorem flagged_example_is_skipped (h1 h2 : list pystr) (h : pystr)
    (c1 c2 : list Convo) (c : Convo) :
  length h1 = length c1 ->
  is_empty_assistant c = true \/ listed_as_skipped c ->
  exists st,
    aggregate (h1 ++ h2) (c1 ++ c2) = Some st
    /\ aggregate (h1 ++ h :: h2) (c1 ++ c :: c2) = Some (skip st)
    /\ kept_scores (skip st) = kept_scores st
    /\ kept_htmls (skip st) = kept_htmls st
    /\ skipped (skip st) = S (skipped st).
Proof.
  intros Hlen Hflag.
  assert (Hc : is_empty_assistant c = true).
  { destruct Hflag as [H|H]; [exact H|apply listed_as_skipped_flagged, H]. }
  eexists. split; [apply aggregate_foldl|].
  split; [|repeat split].
  rewrite aggregate_foldl. f_equal.
  rewrite !zip_with_app by exact Hlen. rewrite !foldl_app. simpl.
  rewrite <- foldl_step_skip. f_equal.
  unfold step, outcome_of. simpl. rewrite Hc. reflexivity.
Qed.

(** A blank answer next to a snippet that says [Score: True] is skipped. *)
Lemma flagged_example_is_skipped_witness :
  exists st,
    aggregate [lit "Score: 1"] [[say "ok"]] = Some st
    /\ aggregate [lit "Score: 1"; lit "Score: True"] [[say "ok"]; [say "   "]]
       = Some (skip st)
    /\ kept_scores (skip st) = kept_scores st
    /\ kept_htmls (skip st) = kept_htmls st
    /\ skipped (skip st) = S (skipped st).
Proof.
  apply (flagged_example_is_skipped [lit "Score: 1"] [] (lit "Score: True")
           [[say "ok"]] [] [say "   "]); [reflexivity|].
  right. right. exists (say "   "). split; [reflexivity|].
  left. repeat constructor.
Defined.

(** C7. When [htmls] and [convos] differ in length the run is not fatal: the
    warning is printed first; the loop goes through exactly the indices below
    the shorter length, so that the summary printed next and the report are
    those of the two sequences cut to that length, every one of these
    examples counted once; and the run ends normally once the report file is
    written, which the mismatch does not prevent. *)
Theorem length_mismatch_not_fatal (render : list pystr -> pystr)
    (fmt : pyfloat -> pystr) (w : World) (args : Args) (path : pystr)
    (data : Data) :
  resolve_input w args = inr path ->
  json_load w path = Some data ->
  length (get_htmls data) <> length (get_convos data) ->
  exists st acc,
    (forall i, i ∈ loop_indices (get_htmls data) (get_convos data)
       <-> (i < Nat.min (length (get_htmls data)) (length (get_convos data)))%nat)
    /\ NoDup (loop_indices (get_htmls data) (get_convos data))
    /\ aggregate
         (take (Nat.min (length (get_htmls data)) (length (get_convos data)))
            (get_htmls data))
         (take (Nat.min (length (get_htmls data)) (length (get_convos data)))
            (get_convos data)) = Some st
    /\ (length (kept_scores st) + skipped st
        = Nat.min (length (get_htmls data)) (length (get_convos data)))%nat
    /\ (kept_scores st = [] /\ acc = Finite 0
        \/ kept_scores st <> [] /\ mean (kept_scores st) = Some acc)
    /\ (exists rest,
          output (main render fmt w args)
          = PrintWarning (length (get_htmls data)) (length (get_convos data))
            :: PrintSummary
                 {| file := path;
                    original_aggregate_score := score data;
                    total_examples := length (get_htmls data);
                    kept_examples := length (kept_scores st);
                    skipped_examples := skipped st;
                    recomputed_accuracy_excluding_empty := acc |}
            :: rest)
    /\ (writable w (out_html_path path) ->
        main render fmt w args
        = Finished
            [PrintWarning (length (get_htmls data)) (length (get_convos data));
             PrintSummary
               {| file := path;
                  original_aggregate_score := score data;
                  total_examples := length (get_htmls data);
                  kept_examples := length (kept_scores st);
                  skipped_examples := skipped st;
                  recomputed_accuracy_excluding_empty := acc |};
             WriteFile (out_html_path path)
               (render (header_block fmt path (length (get_htmls data))
                          (length (kept_scores st)) (skipped st) acc
                        :: kept_htmls st));
             PrintReportPath (out_html_path path)]
        /\ exit_status (main render fmt w args) = 0%nat).
Proof.
  intros Hr Hl Hne.
  destruct (process_outcome render fmt w path data)
    as (st & acc & Ha & Hacc & Hp).
  rewrite bool_decide_false in Hp by congruence. cbv zeta in Hp.
  rewrite (main_loaded render fmt w args path data Hr Hl), Hp.
  exists st, acc.
  split; [intros i; unfold loop_indices; rewrite elem_of_seq; lia|].
  split; [apply NoDup_seq|].
  split. { rewrite <- Ha, !aggregate_foldl, zip_take by lia. reflexivity. }
  split; [exact (aggregate_counts _ _ _ Ha)|]. split; [exact Hacc|].
  split.
  - destruct (write_file w _ _); eexists; reflexivity.
  - intros Hw. rewrite Hw. split; reflexivity.
Qed.

(** Five snippets and three conversations, found with [--latest]. *)
Lemma length_mismatch_not_fatal_witness :
  exists st acc,
    aggregate (take 3 (get_htmls mismatched_data))
      (take 3 (get_convos mismatched_data)) = Some st
    /\ main plain_render plain_format sample_world
         {| arg_file := None; arg_latest := true |}
       = Finished
           [PrintWarning 5 3;
            PrintSummary
              {| file := sample_path;
                 original_aggregate_score := None;
                 total_examples := 5;
                 kept_examples := length (kept_scores st);
                 skipped_examples := skipped st;
                 recomputed_accuracy_excluding_empty := acc |};
            WriteFile (out_html_path sample_path)
              (plain_render
                 (header_block plain_format sample_path 5
                    (length (kept_scores st)) (skipped st) acc
                  :: kept_htmls st));
            PrintReportPath (out_html_path sample_path)].
Proof.
  destruct (length_mismatch_not_fatal plain_render plain_format sample_world
              {| arg_file := None; arg_latest := true |}
              sample_path mismatched_data)
    as (st & acc & _ & _ & Ha & _ & _ & _ & Hm);
    [reflexivity|reflexivity|discriminate|].
  exists st, acc. split; [exact Ha|].
  apply Hm. intros text. reflexivity.
Defined.

(** C8, as stated, fails: with [--file] given, [--latest] is ignored and an
    empty search directory stops nothing. *)
Lemma latest_ignored_with_file :
  arg_latest {| arg_file := Some sample_path; arg_latest := true |} = true
  /\ tmp_glob empty_tmp_world = []
  /\ exit_status
       (main plain_render plain_format empty_tmp_world
          {| arg_file := Some sample_path; arg_latest := true |}) = 0%nat
  /\ printed_summary
       (main plain_render plain_format empty_tmp_world
          {| arg_file := Some sample_path; arg_latest := true |}) <> None
  /\ written_report
       (main plain_render plain_format empty_tmp_world
          {| arg_file := Some sample_path; arg_latest := true |}) <> None.
Proof.
  repeat split; try reflexivity; vm_compute; discriminate.
Qed.

(** C8, amended. If [--file] gives no path and either [--latest] is not given
    or the search finds no file, the process ends with a nonzero exit status
    and a message, and prints no summary and writes no report. *)
Theorem no_input_path_is_fatal (render : list pystr -> pystr)
    (fmt : pyfloat -> pystr) (w : World) (args : Args) :
  truthy (arg_file args) = false ->
  arg_latest args = false \/ tmp_glob w = [] ->
  exists msg,
    main render fmt w args = SystemExit msg
    /\ msg <> []
    /\ exit_status (main render fmt w args) <> 0%nat
    /\ printed_summary (main render fmt w args) = None
    /\ written_report (main render fmt w args) = None
    /\ printed_warnings (main render fmt w args) = [].
Proof.
  intros Hf Hl. unfold main.
  destruct (resolve_input_fails w args Hf Hl) as [-> | ->];
    eexists; (split; [reflexivity|]); repeat split; discriminate.
Qed.

(** An empty [--file] with [--latest] and nothing to find. *)
Lemma no_input_path_is_fatal_witness :
  exists msg,
    main plain_render plain_format empty_tmp_world
      {| arg_file := Some []; arg_latest := true |} = SystemExit msg
    /\ msg <> []
    /\ exit_status
         (main plain_render plain_format empty_tmp_world
            {| arg_file := Some []; arg_latest := true |}) <> 0%nat
    /\ printed_summary
         (main plain_render plain_format empty_tmp_world
            {| arg_file := Some []; arg_latest := true |}) = None
    /\ written_report
         (main plain_render plain_format empty_tmp_world
            {| arg_file := Some []; arg_latest := true |}) = None
    /\ printed_warnings
         (main plain_render plain_format empty_tmp_world
            {| arg_file := Some []; arg_latest := true |}) = [].
Proof.
  apply (no_input_path_is_fatal plain_render plain_format empty_tmp_world
           {| arg_file := Some []; arg_latest := true |});
    [reflexivity|right; reflexivity].
Defined.

(** C9. A bundle without the key [htmls] or without the key [convos] is
    processed as the bundle where that key holds an empty sequence: the run
    is the same; nothing is kept and nothing skipped, and the summary says so,
    with a total of zero too when both keys are missing; and the run ends
    normally once the report file is written, which the missing key does not
    prevent. *)
Theorem missing_keys_are_empty (render : list pystr -> pystr)
    (fmt : pyfloat -> pystr) (w : World) (args : Args) (path : pystr)
    (data : Data) :
  resolve_input w args = inr path ->
  json_load w path = Some data ->
  htmls data = None \/ convos data = None ->
  (htmls data = None -> get_htmls data = [])
  /\ (convos data = None -> get_convos data = [])
  /\ main render fmt w args
     = process render fmt w path
         {| htmls := Some (get_htmls data);
            convos := Some (get_convos data);
            score := score data |}
  /\ exists s,
       printed_summary (main render fmt w args) = Some s
       /\ kept_examples s = 0%nat
       /\ skipped_examples s = 0%nat
       /\ recomputed_accuracy_excluding_empty s = Finite 0
       /\ total_examples s = length (get_htmls data)
       /\ (htmls data = None -> convos data = None ->
           total_examples s = 0%nat
           /\ printed_warnings (main render fmt w args) = [])
       /\ (writable w (out_html_path path) ->
           exit_status (main render fmt w args) = 0%nat
           /\ written_report (main render fmt w args)
              = Some (out_html_path path,
                      render [header_block fmt path (length (get_htmls data))
                                0 0 (Finite 0)])
           /\ (htmls data = None -> convos data = None ->
               main render fmt w args
               = Finished [PrintSummary s;
                           WriteFile (out_html_path path)
                             (render [header_block fmt path 0 0 0 (Finite 0)]);
                           PrintReportPath (out_html_path path)])).
Proof.
  intros Hr Hl Hmiss.
  split; [intros H; unfold get_htmls; rewrite H; reflexivity|].
  split; [intros H; unfold get_convos; rewrite H; reflexivity|].
  rewrite (main_loaded render fmt w args path data Hr Hl).
  split; [reflexivity|].
  destruct (process_outcome render fmt w path data)
    as (st & acc & Ha & Hacc & Hp).
  assert (Hz : zip (get_htmls data) (get_convos data) = []).
  { unfold get_htmls, get_convos.
    destruct Hmiss as [-> | ->]; simpl; [reflexivity|].
    destruct (default [] (htmls data)); reflexivity. }
  rewrite aggregate_foldl, Hz in Ha. simpl in Ha. inversion Ha; subst st.
  simpl in Hacc, Hp. destruct Hacc as [[_ ->]|[Hn _]]; [|congruence].
  rewrite Hp. clear Hp. eexists. split.
  { unfold printed_summary.
    destruct (write_file w _ _); case_bool_decide; reflexivity. }
  simpl. do 4 (split; [reflexivity|]). split.
  - intros Hh Hc. unfold get_htmls, get_convos. rewrite Hh, Hc.
    split; [reflexivity|]. destruct (write_file w _ _); reflexivity.
  - intros Hw. rewrite Hw. split; [reflexivity|].
    split; [unfold written_report; case_bool_decide; reflexivity|].
    intros Hh Hc. unfold get_htmls, get_convos. rewrite Hh, Hc. reflexivity.
Qed.

(** A bundle with neither key. *)
Lemma missing_keys_are_empty_witness :
  exists s,
    printed_summary
      (main plain_render plain_format empty_tmp_world
         {| arg_file := Some sample_path; arg_latest := false |}) = Some s
    /\ total_examples s = 0%nat /\ kept_examples s = 0%nat
    /\ skipped_examples s = 0%nat
    /\ exit_status
         (main plain_render plain_format empty_tmp_world
            {| arg_file := Some sample_path; arg_latest := false |}) = 0%nat.
Proof.
  destruct (missing_keys_are_empty plain_render plain_format empty_tmp_world
              {| arg_file := Some sample_path; arg_latest := false |}
              sample_path bare_data)
    as (_ & _ & _ & s & Hs & Hk & Hsk & _ & _ & Hboth & Hw);
    [reflexivity|reflexivity|left; reflexivity|].
  exists s. split; [exact Hs|].
  split; [apply Hboth; reflexivity|]. split; [exact Hk|]. split; [exact Hsk|].
  apply Hw. intros text. reflexivity.
Defined.

(** C10. [total_examples] is [len(htmls)] alone; when [convos] is strictly
    shorter than [htmls] it strictly exceeds kept plus skipped. *)
Theorem total_examples_is_len_htmls (render : list pystr -> pystr)
    (fmt : pyfloat -> pystr) (w : World) (path : pystr) (data : Data) :
  exists s,
    printed_summary (process render fmt w path data) = Some s
    /\ total_examples s = length (get_htmls data)
    /\ ((length (get_convos data) < length (get_htmls data))%nat ->
        (kept_examples s + skipped_examples s < total_examples s)%nat).
Proof.
  destruct (process_summary render fmt w path data) as (st & acc & Ha & _ & Hs).
  pose proof (aggregate_counts _ _ _ Ha) as Hc.
  eexists. split; [exact Hs|]. simpl. split; [reflexivity|]. lia.
Qed.

(** Five snippets and three conversations: the total is five, above kept plus
    skipped. *)
Lemma total_examples_is_len_htmls_witness :
  exists s,
    printed_summary
      (process plain_render plain_format sample_world sample_path
         mismatched_data)
    = Some s
    /\ total_examples s = 5%nat
    /\ (kept_examples s + skipped_examples s < total_examples s)%nat.
Proof.
  destruct (total_examples_is_len_htmls plain_render plain_format sample_world
              sample_path mismatched_data) as (s & Hs & Ht & Hlt).
  exists s. split; [exact Hs|]. split; [exact Ht|].
  apply Hlt. vm_compute. lia.
Defined.

(** * Further properties of the code *)

(** ** The input path *)

Lemma pystr_leb_refl a : pystr_leb a a = true.
Proof.
  induction a as [|x a IH]; [reflexivity|]. simpl.
  rewrite N.ltb_irrefl. exact IH.
Qed.

Lemma pystr_leb_total a : forall b,
  pystr_leb a b = false -> pystr_leb b a = true.
Proof.
  induction a as [|x a IH]; intros [|y b] H; simpl in *; try congruence.
  destruct (N.ltb_spec x y); [discriminate|].
  destruct (N.ltb_spec y x); [reflexivity|]. apply IH, H.
Qed.

Lemma pystr_leb_trans a : forall b c,
  pystr_leb a b = true -> pystr_leb b c = true -> pystr_leb a c = true.
Proof.
  induction a as [|x a IH]; intros [|y b] [|z c] Hab Hbc; simpl in *;
    try congruence.
  destruct (N.ltb_spec x y), (N.ltb_spec y z), (N.ltb_spec x z);
    try reflexivity; try lia;
    destruct (N.ltb_spec y x), (N.ltb_spec z y), (N.ltb_spec z x);
    try discriminate; try lia.
  apply (IH b c); assumption.
Qed.

Lemma pystr_leb_antisym a : forall b,
  pystr_leb a b = true -> pystr_leb b a = true -> a = b.
Proof.
  induction a as [|x a IH]; intros [|y b] Hab Hba; simpl in *;
    try congruence.
  destruct (N.ltb_spec x y), (N.ltb_spec y x); try discriminate; try lia.
  assert (x = y) by lia. subst. f_equal. apply IH; assumption.
Qed.

Lemma elem_of_insert_sorted q x l :
  q ∈ insert_sorted x l <-> q = x \/ q ∈ l.
Proof.
  induction l as [|y l IH]; simpl.
  - rewrite list_elem_of_singleton, elem_of_nil. tauto.
  - destruct (pystr_leb x y).
    + rewrite elem_of_cons. tauto.
    + rewrite !elem_of_cons, IH. tauto.
Qed.

Lemma elem_of_sorted q l : q ∈ sorted l <-> q ∈ l.
Proof.
  induction l as [|x l IH]; [reflexivity|].
  simpl. rewrite elem_of_insert_sorted, elem_of_cons, IH. tauto.
Qed.

Lemma increasing_insert x l :
  increasing l -> increasing (insert_sorted x l).
Proof.
  induction l as [|y l IH]; simpl.
  - intros _. split; [intros y Hy; inversion Hy|exact I].
  - intros [Hy Hl]. destruct (pystr_leb x y) eqn:E.
    + split; [|split; assumption].
      intros z Hz. apply elem_of_cons in Hz as [->|Hz]; [exact E|].
      apply (pystr_leb_trans x y z E), Hy, Hz.
    + split; [|apply IH, Hl].
      intros z Hz. apply elem_of_insert_sorted in Hz as [->|Hz].
      * apply pystr_leb_total, E.
      * apply Hy, Hz.
Qed.

Lemma increasing_sorted l : increasing (sorted l).
Proof.
  induction l as [|x l IH]; [exact I|]. apply increasing_insert, IH.
Qed.

Lemma increasing_last l p :
  increasing l -> last l = Some p ->
  forall q, q ∈ l -> pystr_leb q p = true.
Proof.
  induction l as [|x l IH]; [discriminate|].
  intros [Hx Hl] Hlast q Hq. destruct l as [|y l].
  - inversion Hlast; subst. apply list_elem_of_singleton in Hq. subst.
    apply pystr_leb_refl.
  - change (last (y :: l) = Some p) in Hlast.
    apply elem_of_cons in Hq as [->|Hq].
    + apply Hx. apply list_elem_of_lookup.
      rewrite last_lookup in Hlast. eauto.
    + apply IH; assumption.
Qed.

Lemma last_elem_of (l : list pystr) p : last l = Some p -> p ∈ l.
Proof.
  rewrite last_lookup. intros H. apply list_elem_of_lookup. eauto.
Qed.

Lemma latest_candidate l p :
  last (sorted l) = Some p
  <-> p ∈ l /\ forall q, q ∈ l -> pystr_leb q p = true.
Proof.
  split.
  - intros H. split.
    + apply elem_of_sorted, last_elem_of, H.
    + intros q Hq.
      apply (increasing_last (sorted l) p (increasing_sorted l) H).
      apply elem_of_sorted, Hq.
  - intros [Hp Hmax].
    destruct (last (sorted l)) as [p'|] eqn:E.
    + f_equal. apply pystr_leb_antisym.
      * apply Hmax, elem_of_sorted, last_elem_of, E.
      * apply (increasing_last (sorted l) p' (increasing_sorted l) E).
        apply elem_of_sorted, Hp.
    + apply last_None in E. apply elem_of_sorted in Hp.
      rewrite E in Hp. inversion Hp.
Qed.

(** X1. The input path: a non-empty [--file] is taken as it is, whatever
    [--latest] says; without it, [--latest] takes the greatest of the files
    found, in the order of code points; nothing else gives a path. *)
Theorem resolve_input_path (w : World) (args : Args) (p : pystr) :
  resolve_input w args = inr p
  <-> (arg_file args = Some p /\ p <> [])
      \/ (truthy (arg_file args) = false /\ arg_latest args = true
          /\ p <> [] /\ p ∈ tmp_glob w
          /\ forall q, q ∈ tmp_glob w -> pystr_leb q p = true).
Proof.
  unfold resolve_input. split.
  - destruct (arg_latest args) eqn:El, (truthy (arg_file args)) eqn:Et; simpl.
    + rewrite Et. simpl. intros [= <-]. left.
      destruct (arg_file args) as [[|c f]|]; try discriminate.
      split; [reflexivity|discriminate].
    + destruct (last (sorted (tmp_glob w))) as [c|] eqn:E; [|discriminate].
      destruct c as [|x c]; [discriminate|]. simpl. intros [= <-]. right.
      apply latest_candidate in E as [Hin Hmax].
      repeat split; [discriminate|exact Hin|exact Hmax].
    + rewrite Et. simpl. intros [= <-]. left.
      destruct (arg_file args) as [[|c f]|]; try discriminate.
      split; [reflexivity|discriminate].
    + rewrite Et. discriminate.
  - intros [[Hf Hp]|(Ht & Hl & Hp & Hin & Hmax)].
    + rewrite Hf. destruct p as [|x p]; [congruence|]. simpl.
      rewrite andb_false_r. reflexivity.
    + rewrite Hl, Ht. simpl.
      rewrite (proj2 (latest_candidate (tmp_glob w) p) (conj Hin Hmax)).
      destruct p as [|x p]; [congruence|]. reflexivity.
Qed.

(** Of two files found, [--latest] takes the later name. *)
Lemma resolve_input_path_witness :
  resolve_input sample_world {| arg_file := None; arg_latest := true |}
  = inr sample_path.
Proof.
  apply (resolve_input_path sample_world
           {| arg_file := None; arg_latest := true |} sample_path).
  right. split; [reflexivity|]. split; [reflexivity|].
  split; [discriminate|]. split.
  - apply elem_of_cons. right. apply elem_of_cons. left. reflexivity.
  - intros q Hq. apply elem_of_cons in Hq as [->|Hq]; [reflexivity|].
    apply list_elem_of_singleton in Hq. subst. reflexivity.
Defined.

(** ** How a run ends *)

(** X2. A run can fail in three places only: finding the input path, loading
    the file, and writing the report. Before the first two nothing is printed;
    once the file is loaded the loop and the mean never raise and the summary
    is always printed, after the warning if there is one; the exit status is 0
    exactly when the report is then written. *)
Theorem main_exit_status (render : list pystr -> pystr)
    (fmt : pyfloat -> pystr) (w : World) (args : Args) :
  match resolve_input w args with
  | inl msg => main render fmt w args = SystemExit msg
  | inr path =>
      match json_load w path with
      | None => main render fmt w args = Raised []
      | Some data =>
          exists warning s text,
            (warning = []
             \/ warning = [PrintWarning (length (get_htmls data))
                             (length (get_convos data))])
            /\ printed_summary (main render fmt w args) = Some s
            /\ (write_file w (out_html_path path) text = true
                /\ main render fmt w args
                   = Finished (warning ++
                               [PrintSummary s;
                                WriteFile (out_html_path path) text;
                                PrintReportPath (out_html_path path)])
                \/ write_file w (out_html_path path) text = false
                   /\ main render fmt w args
                      = Raised (warning ++ [PrintSummary s]))
      end
  end
  /\ (exit_status (main render fmt w args) = 0%nat
      <-> exists p t, written_report (main render fmt w args) = Some (p, t)).
Proof.
  unfold main. destruct (resolve_input w args) as [msg|path] eqn:Er.
  { split; [reflexivity|]. split; [discriminate|].
    intros (p & t & H). discriminate. }
  destruct (json_load w path) as [data|] eqn:El.
  2:{ split; [reflexivity|]. split; [discriminate|].
      intros (p & t & H). discriminate. }
  destruct (process_outcome render fmt w path data)
    as (st & acc & _ & _ & Hp).
  rewrite Hp. clear Hp. cbv zeta.
  set (warning := if bool_decide (length (get_convos data)
                                  = length (get_htmls data))
                  then [] else _).
  assert (Hwarn : warning = []
                  \/ warning = [PrintWarning (length (get_htmls data))
                                  (length (get_convos data))])
    by (unfold warning; case_bool_decide; [left|right]; reflexivity).
  set (s := Build_Summary _ _ _ _ _ _).
  set (text := render _).
  assert (Hsum : forall tail,
            head (omap (fun e => match e with
                                 | PrintSummary s => Some s
                                 | _ => None
                                 end) (warning ++ PrintSummary s :: tail))
            = Some s)
    by (intros tail; destruct Hwarn as [-> | ->]; reflexivity).
  destruct (write_file w (out_html_path path) text) eqn:Ew.
  - split.
    + exists warning, s, text. split; [exact Hwarn|].
      split; [apply Hsum|]. left. split; [exact Ew|reflexivity].
    + split; [|reflexivity]. intros _. exists (out_html_path path), text.
      unfold written_report. destruct Hwarn as [-> | ->]; reflexivity.
  - split.
    + exists warning, s, text. split; [exact Hwarn|].
      split; [apply Hsum|]. right. split; [exact Ew|reflexivity].
    + split; [discriminate|]. intros (p & t & H).
      unfold written_report in H. destruct Hwarn as [-> | ->]; discriminate.
Qed.

(** Where nothing can be written the run ends with status 1, the summary
    printed. *)
Lemma main_exit_status_witness :
  exit_status
    (main plain_render plain_format read_only_world
       {| arg_file := None; arg_latest := true |}) <> 0%nat.
Proof.
  intros H.
  apply (main_exit_status plain_render plain_format read_only_world
           {| arg_file := None; arg_latest := true |}) in H.
  destruct H as (p & t & H). vm_compute in H. discriminate.
Defined.

(** X3. The warning is printed exactly when the two sequences differ in
    length, once, with the two lengths, and before the summary; with equal
    lengths the summary is the first thing printed. *)
Theorem warning_iff_mismatch (render : list pystr -> pystr)
    (fmt : pyfloat -> pystr) (w : World) (path : pystr) (data : Data) :
  (length (get_htmls data) = length (get_convos data) ->
   printed_warnings (process render fmt w path data) = []
   /\ exists s rest,
        output (process render fmt w path data) = PrintSummary s :: rest)
  /\ (length (get_htmls data) <> length (get_convos data) ->
      printed_warnings (process render fmt w path data)
      = [(length (get_htmls data), length (get_convos data))]
      /\ exists s rest,
           output (process render fmt w path data)
           = PrintWarning (length (get_htmls data)) (length (get_convos data))
             :: PrintSummary s :: rest).
Proof.
  destruct (process_outcome render fmt w path data)
    as (st & acc & _ & _ & Hp).
  rewrite Hp. clear Hp. cbv zeta. split; intros H.
  - rewrite bool_decide_true by congruence.
    destruct (write_file w _ _); (split; [reflexivity|]);
      eexists _, _; reflexivity.
  - rewrite bool_decide_false by congruence.
    destruct (write_file w _ _); (split; [reflexivity|]);
      eexists _, _; reflexivity.
Qed.

(** Three snippets and three conversations: no warning; five and three: one,
    also where nothing can be written. *)
Lemma warning_iff_mismatch_witness :
  printed_warnings
    (process plain_render plain_format sample_world sample_path sample_data)
  = []
  /\ printed_warnings
       (process plain_render plain_format read_only_world sample_path
          mismatched_data)
     = [(5, 3)%nat].
Proof.
  split.
  - apply (warning_iff_mismatch plain_render plain_format sample_world
             sample_path sample_data). reflexivity.
  - apply (warning_iff_mismatch plain_render plain_format read_only_world
             sample_path mismatched_data). discriminate.
Defined.

(** ** What is kept *)

Lemma kept_sublist (hs : list pystr) : forall cs : list Convo,
  (fst <$> filter (fun p => is_kept p) (zip hs cs)) `sublist_of` hs.
Proof.
  induction hs as [|h hs IH]; intros [|c cs]; simpl;
    try apply sublist_nil_l.
  rewrite filter_cons. destruct (decide (is_kept (h, c))).
  - simpl. apply sublist_skip, IH.
  - apply sublist_cons, IH.
Qed.

Lemma kept_pairs (l : list (pystr * Convo)) :
  Forall2 (fun h x => extract_score_from_html h = Some x)
    (fst <$> filter (fun p => is_kept p) l)
    (omap (fun p => outcome_of p.1 p.2) l).
Proof.
  induction l as [|p l IH]; [constructor|].
  rewrite filter_cons. cbn [omap list_omap].
  destruct (outcome_of p.1 p.2) as [x|] eqn:E.
  - assert (K : is_kept p = true) by (unfold is_kept; rewrite E; reflexivity).
    rewrite decide_True by (rewrite K; exact I). simpl.
    constructor; [|exact IH].
    unfold outcome_of in E. destruct (is_empty_assistant p.2); [discriminate|].
    exact E.
  - assert (K : is_kept p = false) by (unfold is_kept; rewrite E; reflexivity).
    rewrite decide_False by (rewrite K; simpl; tauto). exact IH.
Qed.

Lemma LoopState_eq st ks kh sk :
  kept_scores st = ks -> kept_htmls st = kh -> skipped st = sk ->
  st = {| kept_scores := ks; kept_htmls := kh; skipped := sk |}.
Proof. destruct st. simpl. intros -> -> ->. reflexivity. Qed.

Lemma aggregate_app_state h1 h2 c1 c2 :
  length h1 = length c1 ->
  exists st1 st2,
    aggregate h1 c1 = Some st1 /\ aggregate h2 c2 = Some st2
    /\ aggregate (h1 ++ h2) (c1 ++ c2)
       = Some {| kept_scores := kept_scores st1 ++ kept_scores st2;
                 kept_htmls := kept_htmls st1 ++ kept_htmls st2;
                 skipped := skipped st1 + skipped st2 |}.
Proof.
  intros Hlen. eexists _, _.
  split; [apply aggregate_foldl|]. split; [apply aggregate_foldl|].
  rewrite aggregate_foldl. f_equal.
  rewrite zip_with_app by exact Hlen. rewrite foldl_app.
  apply LoopState_eq.
  - rewrite (foldl_step_scores (zip h2 c2)), (foldl_step_scores (zip h2 c2) loop_init).
    reflexivity.
  - rewrite (foldl_step_htmls (zip h2 c2)), (foldl_step_htmls (zip h2 c2) loop_init).
    reflexivity.
  - rewrite (foldl_step_skipped (zip h2 c2)), (foldl_step_skipped (zip h2 c2) loop_init).
    reflexivity.
Qed.

Lemma is_kept_tests (p : pystr * Convo) :
  is_kept p
  <-> is_empty_assistant p.2 = false
      /\ is_Some (extract_score_from_html p.1).
Proof.
  unfold is_kept, outcome_of. destruct (is_empty_assistant p.2); simpl.
  - split; [tauto|]. intros [H _]. discriminate.
  - destruct (extract_score_from_html p.1) as [x|]; simpl.
    + split; [|tauto]. intros _. split; [reflexivity|]. exists x. reflexivity.
    + split; [tauto|]. intros [_ [x H]]. discriminate.
Qed.

(** X4. Once written, the report holds the header made of the figures of the
    summary and then the snippets of exactly the examples with a real answer
    and a score, in the order of the input; the summary counts them as
    kept. *)
Theorem report_holds_kept_snippets (render : list pystr -> pystr)
    (fmt : pyfloat -> pystr) (w : World) (path : pystr) (data : Data) :
  writable w (out_html_path path) ->
  exists s,
    printed_summary (process render fmt w path data) = Some s
    /\ written_report (process render fmt w path data)
       = Some (out_html_path path,
               render
                 (header_block fmt path (total_examples s) (kept_examples s)
                    (skipped_examples s)
                    (recomputed_accuracy_excluding_empty s)
                  :: (fst <$>
                      filter
                        (fun p => is_empty_assistant p.2 = false
                                  /\ is_Some (extract_score_from_html p.1))
                        (zip (get_htmls data) (get_convos data)))))
    /\ kept_examples s
       = length
           (filter
              (fun p => is_empty_assistant p.2 = false
                        /\ is_Some (extract_score_from_html p.1))
              (zip (get_htmls data) (get_convos data)))
    /\ (fst <$>
        filter
          (fun p => is_empty_assistant p.2 = false
                    /\ is_Some (extract_score_from_html p.1))
          (zip (get_htmls data) (get_convos data)))
       `sublist_of` get_htmls data.
Proof.
  intros Hw.
  destruct (process_outcome render fmt w path data)
    as (st & acc & Ha & _ & Hp).
  destruct (aggregate_total (get_htmls data) (get_convos data))
    as (st' & Ha' & Hs & Hh & _).
  assert (st' = st) by congruence. subst st'.
  rewrite <- (list_filter_iff _ _ _ is_kept_tests).
  rewrite Hp. clear Hp. cbv zeta. rewrite Hw.
  eexists. split; [unfold printed_summary; case_bool_decide; reflexivity|].
  cbn [total_examples kept_examples skipped_examples
       recomputed_accuracy_excluding_empty].
  split; [unfold written_report; rewrite Hh; case_bool_decide; reflexivity|].
  split.
  - rewrite Hs. unfold scores_of_kept. apply length_omap_outcome.
  - apply kept_sublist.
Qed.

(** The report of the three sample examples holds the two answered ones. *)
Lemma report_holds_kept_snippets_witness :
  exists s,
    written_report
      (process plain_render plain_format sample_world sample_path sample_data)
    = Some (out_html_path sample_path,
            plain_render
              [header_block plain_format sample_path (total_examples s)
                 (kept_examples s) (skipped_examples s)
                 (recomputed_accuracy_excluding_empty s);
               lit "<p>Score: True</p>"; lit "<p>Score: 0.0</p>"])
    /\ kept_examples s = 2%nat.
Proof.
  destruct (report_holds_kept_snippets plain_render plain_format sample_world
              sample_path sample_data) as (s & _ & Hr & Hk & _).
  { intros text. reflexivity. }
  exists s. split; [exact Hr|exact Hk].
Defined.

(** X5. A run over two bundles put end to end is the two runs put end to
    end: the kept scores and snippets are concatenated and the skipped counts
    added, provided the first bundle pairs every snippet with a
    conversation. *)
Theorem aggregate_app (h1 h2 : list pystr) (c1 c2 : list Convo) :
  length h1 = length c1 ->
  exists st1 st2,
    aggregate h1 c1 = Some st1 /\ aggregate h2 c2 = Some st2
    /\ aggregate (h1 ++ h2) (c1 ++ c2)
       = Some {| kept_scores := kept_scores st1 ++ kept_scores st2;
                 kept_htmls := kept_htmls st1 ++ kept_htmls st2;
                 skipped := skipped st1 + skipped st2 |}.
Proof. apply aggregate_app_state. Qed.

(** Two bundles of one example each. *)
Lemma aggregate_app_witness :
  exists st1 st2,
    aggregate [lit "Score: 1"] [[say "ok"]] = Some st1
    /\ aggregate [lit "Score: True"] [[say "   "]] = Some st2
    /\ aggregate ([lit "Score: 1"] ++ [lit "Score: True"])
         ([[say "ok"]] ++ [[say "   "]])
       = Some {| kept_scores := kept_scores st1 ++ kept_scores st2;
                 kept_htmls := kept_htmls st1 ++ kept_htmls st2;
                 skipped := skipped st1 + skipped st2 |}.
Proof.
  apply (aggregate_app [lit "Score: 1"] [lit "Score: True"]
           [[say "ok"]] [[say "   "]]).
  reflexivity.
Defined.

Lemma aggregate_one h c :
  aggregate [h] [c] = Some (step loop_init (h, c)).
Proof. rewrite aggregate_foldl. reflexivity. Qed.

(** X6. An example with a real answer and a score in its snippet is kept:
    its score and its snippet appear between what is kept before it and what
    is kept after it, and the skipped count does not move. *)
Theorem scored_example_is_kept (h1 h2 : list pystr) (h : pystr)
    (c1 c2 : list Convo) (c : Convo) (x : pyfloat) :
  length h1 = length c1 ->
  is_empty_assistant c = false ->
  extract_score_from_html h = Some x ->
  exists st1 st2,
    aggregate h1 c1 = Some st1 /\ aggregate h2 c2 = Some st2
    /\ aggregate (h1 ++ h :: h2) (c1 ++ c :: c2)
       = Some {| kept_scores := kept_scores st1 ++ x :: kept_scores st2;
                 kept_htmls := kept_htmls st1 ++ h :: kept_htmls st2;
                 skipped := skipped st1 + skipped st2 |}.
Proof.
  intros Hlen Hc Hx.
  destruct (aggregate_app_state h1 ([h] ++ h2) c1 ([c] ++ c2) Hlen)
    as (st1 & st' & H1 & H' & H).
  destruct (aggregate_app_state [h] h2 [c] c2 eq_refl)
    as (sth & st2 & Hh & H2 & H'').
  rewrite H'' in H'. inversion H'; subst st'. clear H'.
  rewrite aggregate_one in Hh. inversion Hh; subst sth. clear Hh.
  exists st1, st2. split; [exact H1|]. split; [exact H2|].
  simpl in H. rewrite H. unfold step, outcome_of. simpl. rewrite Hc, Hx.
  reflexivity.
Qed.

(** A correct answer between two others. *)
Lemma scored_example_is_kept_witness :
  exists st1 st2,
    aggregate [lit "Score: 0"] [[say "a"]] = Some st1
    /\ aggregate [lit "Score: 1"] [[say "c"]] = Some st2
    /\ aggregate ([lit "Score: 0"] ++ lit "Score: True" :: [lit "Score: 1"])
         ([[say "a"]] ++ [say "b"] :: [[say "c"]])
       = Some {| kept_scores := kept_scores st1 ++ Finite 1 :: kept_scores st2;
                 kept_htmls := kept_htmls st1 ++ lit "Score: True" :: kept_htmls st2;
                 skipped := skipped st1 + skipped st2 |}.
Proof.
  apply (scored_example_is_kept [lit "Score: 0"] [lit "Score: 1"]
           (lit "Score: True") [[say "a"]] [[say "c"]] [say "b"] (Finite 1));
    reflexivity.
Defined.

(** X7. An example with a real answer but no score in its snippet is
    skipped: one more skipped, nothing more kept. *)
Theorem unscored_example_is_skipped (h1 h2 : list pystr) (h : pystr)
    (c1 c2 : list Convo) (c : Convo) :
  length h1 = length c1 ->
  is_empty_assistant c = false ->
  extract_score_from_html h = None ->
  exists st,
    aggregate (h1 ++ h2) (c1 ++ c2) = Some st
    /\ aggregate (h1 ++ h :: h2) (c1 ++ c :: c2)
       = Some {| kept_scores := kept_scores st;
                 kept_htmls := kept_htmls st;
                 skipped := S (skipped st) |}.
Proof.
  intros Hlen Hc Hx. eexists. split; [apply aggregate_foldl|].
  rewrite aggregate_foldl. f_equal.
  rewrite !zip_with_app by exact Hlen. rewrite !foldl_app. simpl.
  change {| kept_scores := kept_scores ?st; kept_htmls := _; skipped := _ |}
    with (skip st).
  rewrite <- foldl_step_skip. f_equal.
  unfold step, outcome_of. simpl. rewrite Hc, Hx. reflexivity.
Qed.

(** A real answer whose snippet shows no score. *)
Lemma unscored_example_is_skipped_witness :
  exists st,
    aggregate ([lit "Score: 1"] ++ []) ([[say "ok"]] ++ []) = Some st
    /\ aggregate ([lit "Score: 1"] ++ lit "Score: n/a" :: [])
         ([[say "ok"]] ++ [say "hm"] :: [])
       = Some {| kept_scores := kept_scores st;
                 kept_htmls := kept_htmls st;
                 skipped := S (skipped st) |}.
Proof.
  apply (unscored_example_is_skipped [lit "Score: 1"] [] (lit "Score: n/a")
           [[say "ok"]] [] [say "hm"]); reflexivity.
Defined.

(** ** What the detector looks at *)

Lemma strip_padded l s r :
  Forall (fun c => is_space c = true) l ->
  Forall (fun c => is_space c = true) r ->
  strip (l ++ s ++ r) = strip s.
Proof.
  intros Hl Hr. symmetry. apply trimmed_unique.
  destruct (strip_trimmed s) as (l0 & r0 & Hs & Hl0 & Hr0 & Hh & Hlast).
  exists (l ++ l0), (r0 ++ r). split.
  - rewrite Hs at 1. rewrite <- !app_assoc. reflexivity.
  - split; [apply Forall_app; split; assumption|].
    split; [apply Forall_app; split; assumption|]. split; assumption.
Qed.

(** X8. The detector looks at the content of the last message only, and at
    it without the white space around it: earlier messages, the roles, and
    white space added before or after the last content change nothing; a
    content that is missing counts as an empty one. *)
Theorem is_empty_assistant_last_content (msgs : list Message)
    (r1 r2 : option pystr) (l s r : pystr) :
  Forall (fun c => is_space c = true) l ->
  Forall (fun c => is_space c = true) r ->
  is_empty_assistant (msgs ++ [{| role := r1; content := Some (l ++ s ++ r) |}])
  = is_empty_assistant [{| role := r2; content := Some s |}]
  /\ is_empty_assistant (msgs ++ [{| role := r1; content := None |}]) = true
  /\ is_empty_assistant (msgs ++ [{| role := r1; content := Some l |}]) = true.
Proof.
  intros Hl Hr. unfold is_empty_assistant. rewrite !last_snoc. simpl last.
  cbn [content]. rewrite !or_empty_Some, (strip_padded l s r Hl Hr).
  split; [reflexivity|]. split; [reflexivity|].
  unfold strip. rewrite (lstrip_all_space l Hl). reflexivity.
Qed.

(** A padded answer after a question is judged like the bare answer. *)
Lemma is_empty_assistant_last_content_witness :
  is_empty_assistant
    ([say "question"]
     ++ [{| role := None; content := Some (lit "  " ++ lit "Paris" ++ lit " ") |}])
  = is_empty_assistant [{| role := Some (lit "assistant");
                           content := Some (lit "Paris") |}].
Proof.
  apply (is_empty_assistant_last_content [say "question"] None
           (Some (lit "assistant")) (lit "  ") (lit "Paris") (lit " "));
    repeat constructor.
Defined.

(** ** Tokens and their scores *)

(** X9. Any run of white space, also none, may stand between the marker and
    the word: [True] then gives 1.0 and [False] gives 0.0, whatever follows
    the word. *)
Theorem extract_score_after_spaces (pre ws suf : pystr) :
  contains pre marker = false ->
  Forall (fun c => is_space c = true) ws ->
  extract_score_from_html (pre ++ marker ++ ws ++ tok_True ++ suf) = Some (Finite 1)
  /\ extract_score_from_html (pre ++ marker ++ ws ++ tok_False ++ suf)
     = Some (Finite 0).
Proof.
  intros Hpre Hws. unfold extract_score_from_html.
  rewrite (re_search_marked pre ws (tok_True ++ suf) tok_True Hpre Hws eq_refl).
  rewrite (re_search_marked pre ws (tok_False ++ suf) tok_False Hpre Hws eq_refl).
  split; reflexivity.
Qed.

(** The word on the next line, after a tab. *)
Lemma extract_score_after_spaces_witness :
  extract_score_from_html
    (lit "<p>" ++ marker ++ [10; 9] ++ tok_True ++ lit "</p>") = Some (Finite 1)
  /\ extract_score_from_html
       (lit "<p>" ++ marker ++ [10; 9] ++ tok_False ++ lit "</p>") = Some (Finite 0).
Proof.
  apply (extract_score_after_spaces (lit "<p>") [10; 9] (lit "</p>"));
    [reflexivity|repeat constructor].
Defined.

(** X10. A token [digits.digits] after the marker gives the double nearest
    to the number it writes in decimal notation ([inf] beyond the doubles),
    when no digit follows it. *)
Theorem extract_score_decimal (pre ws ip fp suf : pystr) :
  contains pre marker = false ->
  Forall (fun c => is_space c = true) ws ->
  ip <> [] -> forallb is_digit ip = true ->
  fp <> [] -> forallb is_digit fp = true ->
  no_digit_ahead suf ->
  extract_score_from_html (pre ++ marker ++ ws ++ ip ++ dot :: fp ++ suf)
  = Some (round_double (decimal_value ip fp)).
Proof.
  intros Hpre Hws Hne Hd Hfne Hfd Hsuf.
  apply (extract_of_number _ (ip ++ dot :: fp)).
  - apply re_search_marked; [exact Hpre|exact Hws|].
    rewrite (match_ws_group_number ip _ Hne Hd).
    apply match_number_decimal; assumption.
  - apply (digits_not_word ip (dot :: fp) 84 (lit "rue") eq_refl Hne Hd).
  - apply (digits_not_word ip (dot :: fp) 70 (lit "alse") eq_refl Hne Hd).
  - apply float_decimal_value; assumption.
Qed.

(** [Score: 0.1] gives the double nearest to one tenth, which is not one
    tenth. *)
Lemma extract_score_decimal_witness :
  extract_score_from_html
    (lit "<p>" ++ marker ++ lit " " ++ lit "0" ++ dot :: lit "1" ++ lit "</p>")
  = Some (Finite (3602879701896397 # 36028797018963968)).
Proof.
  rewrite (extract_score_decimal (lit "<p>") (lit " ") (lit "0") (lit "1")
             (lit "</p>"));
    try reflexivity; try discriminate.
  - repeat constructor.
  - intros c Hc. inversion Hc; subst. reflexivity.
Defined.

(** X11. A token of digits alone after the marker gives the double nearest
    to the integer it writes ([inf] beyond the doubles), when what follows is
    neither a digit nor a dot and a digit. *)
Theorem extract_score_integer (pre ws ip suf : pystr) :
  contains pre marker = false ->
  Forall (fun c => is_space c = true) ws ->
  ip <> [] -> forallb is_digit ip = true ->
  ends_integer suf ->
  extract_score_from_html (pre ++ marker ++ ws ++ ip ++ suf)
  = Some (round_double (inject_Z (numeral ip))).
Proof.
  intros Hpre Hws Hne Hd Hsuf.
  apply (extract_of_number _ ip).
  - apply re_search_marked; [exact Hpre|exact Hws|].
    rewrite (match_ws_group_number ip _ Hne Hd).
    apply match_number_integer; assumption.
  - rewrite <- (app_nil_r ip).
    apply (digits_not_word ip [] 84 (lit "rue") eq_refl Hne Hd).
  - rewrite <- (app_nil_r ip).
    apply (digits_not_word ip [] 70 (lit "alse") eq_refl Hne Hd).
  - apply float_integer_value; assumption.
Qed.

(** Twenty digits at the end of a sentence: the nearest double is not the
    integer written. *)
Lemma extract_score_integer_witness :
  extract_score_from_html
    (lit "" ++ marker ++ [] ++ lit "12345678901234567890" ++ lit ". Done")
  = Some (Finite 12345678901234567168).
Proof.
  rewrite (extract_score_integer (lit "") [] (lit "12345678901234567890")
             (lit ". Done"));
    try reflexivity; try discriminate.
  - constructor.
  - split.
    + intros c Hc. inversion Hc; subst. reflexivity.
    + intros r Hr c Hc. inversion Hr; subst. inversion Hc; subst. reflexivity.
Defined.

(** ** The range of the accuracy *)

Lemma Qsum_le_length xs :
  Forall (fun x => (x <= 1)%Q) xs ->
  (Qsum xs <= inject_Z (Z.of_nat (length xs)))%Q.
Proof.
  induction 1 as [|x xs Hx _ IH].
  - apply Qle_refl.
  - cbn [Qsum fold_right length]. rewrite Nat2Z.inj_succ, <- Z.add_1_l.
    rewrite inject_Z_plus. apply Qplus_le_compat; assumption.
Qed.

Lemma mapM_exact_ratio_le xs : forall qs,
  mapM exact_ratio xs = Some qs ->
  Forall (fun x => fle x (Finite 1)) xs ->
  Forall (fun q => (q <= 1)%Q) qs /\ length qs = length xs.
Proof.
  induction xs as [|x xs IH]; intros qs Hm Hle.
  - inversion Hm; subst. split; [constructor|reflexivity].
  - cbn [mapM] in Hm. inversion Hle; subst.
    destruct x as [q|]; [|contradiction]. simpl in Hm.
    destruct (mapM exact_ratio xs) as [qs'|]; [|discriminate].
    inversion Hm; subst. destruct (IH qs' eq_refl) as [Hq Hl]; [assumption|].
    split; [constructor; assumption|simpl; rewrite Hl; reflexivity].
Qed.

Lemma mapM_exact_ratio_total xs :
  Forall (fun x => fle x (Finite 1)) xs ->
  exists qs, mapM exact_ratio xs = Some qs.
Proof.
  induction 1 as [|y ys Hy _ IH]; [eexists; reflexivity|].
  destruct y as [q|]; [|contradiction]. destruct IH as (qs & Hqs).
  exists (q :: qs). cbn [mapM]. simpl. rewrite Hqs. reflexivity.
Qed.

Lemma mean_bounds xs acc :
  mean xs = Some acc ->
  fle (Finite 0) acc
  /\ (Forall (fun x => fle x (Finite 1)) xs -> fle acc (Finite 1)).
Proof.
  unfold mean. destruct xs as [|x xs]; [discriminate|].
  destruct (mapM exact_ratio (x :: xs)) as [qs|] eqn:E; intros [= <-].
  - split; [apply round_double_nonneg|]. intros Hle.
    destruct (mapM_exact_ratio_le _ _ E Hle) as [Hq Hl].
    apply round_double_le_1.
    change (S (length xs)) with (length (x :: xs)). rewrite <- Hl.
    apply Qle_shift_div_r.
    + rewrite Hl. unfold Qlt. simpl. lia.
    + rewrite Qmult_1_l. apply Qsum_le_length, Hq.
  - split; [exact I|]. intros Hle. exfalso.
    destruct (mapM_exact_ratio_total _ Hle) as (qs & Hqs). congruence.
Qed.

Lemma scores_of_kept_from (hs : list pystr) : forall cs : list Convo,
  Forall (fun x => exists h, h ∈ hs /\ extract_score_from_html h = Some x)
    (scores_of_kept hs cs).
Proof.
  unfold scores_of_kept.
  induction hs as [|h hs IH]; intros [|c cs]; try constructor.
  cbn [zip zip_with omap list_omap].
  assert (Htail : Forall
            (fun x => exists h0, h0 ∈ h :: hs
                        /\ extract_score_from_html h0 = Some x)
            (omap (fun p => outcome_of p.1 p.2) (zip hs cs))).
  { eapply Forall_impl; [apply IH|]. intros x (h0 & Hin & Hx).
    exists h0. split; [apply elem_of_cons; right; exact Hin|exact Hx]. }
  destruct (outcome_of (h, c).1 (h, c).2) as [x|] eqn:E; [|exact Htail].
  constructor; [|exact Htail].
  exists h. split; [apply elem_of_cons; left; reflexivity|].
  unfold outcome_of in E. simpl in E.
  destruct (is_empty_assistant c); [discriminate|exact E].
Qed.

(** X12. The accuracy in the summary is never negative, and it is at most 1
    when no snippet of the bundle gives a score above 1 (as when every score
    is written [True] or [False]). *)
Theorem accuracy_range (render : list pystr -> pystr) (fmt : pyfloat -> pystr)
    (w : World) (path : pystr) (data : Data) :
  exists s,
    printed_summary (process render fmt w path data) = Some s
    /\ fle (Finite 0) (recomputed_accuracy_excluding_empty s)
    /\ ((forall h x, h ∈ get_htmls data ->
           extract_score_from_html h = Some x -> fle x (Finite 1)) ->
        fle (recomputed_accuracy_excluding_empty s) (Finite 1)).
Proof.
  destruct (process_summary render fmt w path data)
    as (st & acc & Ha & Hacc & Hs).
  destruct (aggregate_total (get_htmls data) (get_convos data))
    as (st' & Ha' & Hk & _).
  assert (st' = st) by congruence. subst st'.
  pose proof (scores_of_kept_from (get_htmls data) (get_convos data)) as Hfrom.
  rewrite <- Hk in Hfrom.
  eexists. split; [exact Hs|]. simpl.
  destruct Hacc as [[_ ->]|[_ Hm]].
  - split; [apply Qle_refl|]. intros _. unfold fle, Qle. simpl. lia.
  - destruct (mean_bounds _ _ Hm) as [Hlo Hhi]. split; [exact Hlo|].
    intros Hle. apply Hhi. eapply Forall_impl; [exact Hfrom|].
    intros x (h & Hin & Hx). exact (Hle h x Hin Hx).
Qed.

(** On the three sample examples every score is 0 or 1. *)
Lemma accuracy_range_witness :
  exists s,
    printed_summary
      (process plain_render plain_format sample_world sample_path sample_data)
    = Some s
    /\ fle (Finite 0) (recomputed_accuracy_excluding_empty s)
    /\ fle (recomputed_accuracy_excluding_empty s) (Finite 1).
Proof.
  destruct (accuracy_range plain_render plain_format sample_world sample_path
              sample_data) as (s & Hs & Hlo & Hhi).
  exists s. split; [exact Hs|]. split; [exact Hlo|]. apply Hhi.
  intros h x Hin Hx.
  repeat (apply elem_of_cons in Hin as [->|Hin];
          [vm_compute in Hx; inversion Hx; subst; vm_compute; discriminate|]).
  inversion Hin.
Defined.

(** ** The name of the report *)

Lemma startswith_app_inv p : forall t rest,
  startswith (t ++ rest) p = true ->
  startswith t p = true
  \/ ((length t < length p)%nat /\ head rest = p !! length t).
Proof.
  induction p as [|x p IH]; intros t rest H.
  - left. reflexivity.
  - destruct t as [|y t]; simpl in H.
    + right. split; [simpl; lia|].
      destruct rest as [|y rest]; [discriminate|]. simpl in H.
      apply andb_prop in H as [Hxy _]. apply N.eqb_eq in Hxy. subst.
      reflexivity.
    + apply andb_prop in H as [Hxy H]. apply N.eqb_eq in Hxy. subst y.
      destruct (IH _ _ H) as [Hs|[Hl Hh]].
      * left. simpl. rewrite N.eqb_refl. exact Hs.
      * right. split; [simpl; lia|exact Hh].
Qed.

Lemma replace_from_skip old new pre rest :
  contains pre old = false ->
  (forall k, (0 < k < length old)%nat -> old !! k <> head rest) ->
  replace_from old new 0 (pre ++ rest) = pre ++ replace_from old new 0 rest.
Proof.
  intros H Hov. induction pre as [|c pre IH]; [reflexivity|].
  simpl in H. apply orb_false_elim in H as [H1 H2].
  cbn [app replace_from].
  destruct (startswith (c :: pre ++ rest) old) eqn:E.
  - exfalso. destruct (startswith_app_inv old (c :: pre) rest E) as [Hs|[Hl Hh]].
    + congruence.
    + apply (Hov (length (c :: pre))); [simpl in *; lia|]. symmetry. exact Hh.
  - rewrite (IH H2). reflexivity.
Qed.

Lemma replace_absent old new s :
  contains s old = false -> replace old new s = s.
Proof.
  intros H. unfold replace. rewrite <- (app_nil_r s) at 1.
  rewrite (replace_from_skip old new s [] H).
  - simpl. apply app_nil_r.
  - intros k Hk Hl. simpl in Hl. apply lookup_ge_None in Hl. lia.
Qed.

Lemma tok_allresults_no_overlap k :
  (0 < k < length tok_allresults)%nat -> tok_allresults !! k <> Some 95.
Proof.
  intros Hk. do 11 (destruct k as [|k]; [first [lia|discriminate]|]).
  simpl in Hk. lia.
Qed.

Lemma rfind_from_app c s : forall t i f,
  rfind_from c (s ++ t) i f
  = rfind_from c t (i + Z.of_nat (length s))%Z (rfind_from c s i f).
Proof.
  induction s as [|x s IH]; intros t i f.
  - simpl. f_equal. lia.
  - cbn [app rfind_from length]. rewrite IH. f_equal. lia.
Qed.

Lemma rfind_from_absent c s : forall i f,
  Forall (fun x => x <> c) s -> rfind_from c s i f = f.
Proof.
  induction s as [|x s IH]; intros i f H; [reflexivity|].
  inversion H; subst. simpl.
  destruct (N.eqb_spec x c); [congruence|]. apply IH. assumption.
Qed.

Lemma rfind_from_range c s : forall i f,
  (-1 <= f < i)%Z ->
  (-1 <= rfind_from c s i f < i + Z.of_nat (length s))%Z.
Proof.
  induction s as [|x s IH]; intros i f H; simpl rfind_from.
  - simpl. lia.
  - destruct (x =? c).
    + specialize (IH (i + 1)%Z i). cbn [length]. lia.
    + specialize (IH (i + 1)%Z f). cbn [length]. lia.
Qed.

Lemma rfind_range c s :
  (-1 <= rfind c s < Z.of_nat (length s))%Z.
Proof.
  unfold rfind. pose proof (rfind_from_range c s 0 (-1)). lia.
Qed.

Lemma splitext_root_no_dot p :
  Forall (fun x => x <> dot) p -> splitext_root p = p.
Proof.
  intros H. unfold splitext_root.
  unfold rfind at 2. rewrite (rfind_from_absent dot p 0 (-1) H).
  pose proof (rfind_range slash p).
  destruct (Z.ltb_spec (rfind slash p) (-1)); [lia|reflexivity].
Qed.

Lemma splitext_root_json stem :
  splitext_root (stem ++ lit "_postprocessed.json") = stem ++ tok_postprocessed.
Proof.
  unfold splitext_root.
  assert (Hsep : rfind slash (stem ++ lit "_postprocessed.json")
                 = rfind slash stem).
  { unfold rfind. rewrite rfind_from_app. reflexivity. }
  assert (Hdot : rfind dot (stem ++ lit "_postprocessed.json")
                 = (Z.of_nat (length stem) + 14)%Z).
  { unfold rfind. rewrite rfind_from_app.
    let l := eval vm_compute in (lit "_postprocessed.json") in
    change (lit "_postprocessed.json") with l.
    cbn. lia. }
  rewrite Hsep, Hdot. pose proof (rfind_range slash stem) as Hr.
  destruct (Z.ltb_spec (rfind slash stem) (Z.of_nat (length stem) + 14));
    [|lia].
  replace (Z.to_nat (Z.of_nat (length stem) + 14)) with (length stem + 14)%nat
    by lia.
  assert (Hex : existsb (fun c => negb (c =? dot))
                  (take (length stem + 14 - Z.to_nat (rfind slash stem + 1))
                     (drop (Z.to_nat (rfind slash stem + 1))
                        (stem ++ lit "_postprocessed.json"))) = true).
  { apply existsb_exists. exists 95. split; [|reflexivity].
    apply list_elem_of_In, list_elem_of_lookup.
    exists (length stem - Z.to_nat (rfind slash stem + 1))%nat.
    rewrite lookup_take_lt by lia. rewrite lookup_drop.
    replace (Z.to_nat (rfind slash stem + 1)
             + (length stem - Z.to_nat (rfind slash stem + 1)))%nat
      with (length stem + 0)%nat by lia.
    rewrite lookup_app_r by lia.
    replace (length stem + 0 - length stem)%nat with 0%nat by lia.
    reflexivity. }
  rewrite Hex. rewrite take_app_add. reflexivity.
Qed.

(** X13. For a results file named by the convention, [..._allresults.json],
    the report is written beside it as [..._postprocessed.html]: the token is
    replaced and the extension changed, whatever the directory and the rest of
    the name are, as long as the token does not occur in them. *)
Theorem report_path_convention (stem : pystr) :
  contains stem tok_allresults = false ->
  out_html_path (stem ++ lit "_allresults.json")
  = stem ++ lit "_postprocessed.html".
Proof.
  intros H. unfold out_html_path, replace.
  change (lit "_allresults") with tok_allresults.
  rewrite (replace_from_skip tok_allresults (lit "_postprocessed") stem
             (lit "_allresults.json") H).
  - change (replace_from tok_allresults (lit "_postprocessed") 0
              (lit "_allresults.json"))
      with (lit "_postprocessed.json").
    rewrite splitext_root_json, <- app_assoc. reflexivity.
  - intros k Hk. apply tok_allresults_no_overlap, Hk.
Qed.

(** The path of the sample run. *)
Lemma report_path_convention_witness :
  out_html_path (lit "/tmp/browsecomp_20250101" ++ lit "_allresults.json")
  = lit "/tmp/browsecomp_20250101" ++ lit "_postprocessed.html".
Proof.
  apply (report_path_convention (lit "/tmp/browsecomp_20250101")).
  reflexivity.
Defined.

(** X14. For a file whose name does not hold the token, only the extension
    changes; a name with no dot at all just gets [.html] appended. *)
Theorem report_path_other_names (p : pystr) :
  contains p tok_allresults = false ->
  out_html_path p = splitext_root p ++ lit ".html"
  /\ (Forall (fun x => x <> dot) p -> out_html_path p = p ++ lit ".html").
Proof.
  intros H. unfold out_html_path.
  change (lit "_allresults") with tok_allresults.
  rewrite (replace_absent tok_allresults (lit "_postprocessed") p H).
  split; [reflexivity|]. intros Hd.
  rewrite (splitext_root_no_dot p Hd). reflexivity.
Qed.

(** A results file called [results.json], and one called [results]. *)
Lemma report_path_other_names_witness :
  out_html_path (lit "out/results.json") = lit "out/results.html"
  /\ out_html_path (lit "out/results") = lit "out/results.html".
Proof.
  split.
  - destruct (report_path_other_names (lit "out/results.json") eq_refl)
      as [H _]. rewrite H. reflexivity.
  - destruct (report_path_other_names (lit "out/results") eq_refl)
      as [_ H]. rewrite H; [reflexivity|].
    repeat (constructor; [discriminate|]). constructor.
Defined.

Lemma basename_of_path dir name :
  Forall (fun x => x <> slash) name ->
  basename (dir ++ slash :: name) = name /\ basename name = name.
Proof.
  intros H. unfold basename, rfind. split.
  - rewrite rfind_from_app. cbn [rfind_from]. rewrite N.eqb_refl.
    rewrite (rfind_from_absent slash name _ _ H).
    replace (Z.to_nat (0 + Z.of_nat (length dir) + 1))
      with (length (dir ++ [slash])) by (rewrite length_app; simpl; lia).
    rewrite (cons_middle slash dir name), app_assoc.
    apply drop_app_length.
  - rewrite (rfind_from_absent slash name _ _ H). reflexivity.
Qed.

(** X15. The header of the report names the results file by the last
    component of its path, not by the directory: it reads
    [Source JSON: <name>] between the title and the line of figures. *)
Theorem header_names_file_only (fmt : pyfloat -> pystr) (dir name : pystr)
    (total kept skipped : nat) (acc : pyfloat) :
  Forall (fun x => x <> slash) name ->
  header_block fmt (dir ++ slash :: name) total kept skipped acc
  = lit "<h2>Postprocessed Report</h2><p>Source JSON: " ++ name
    ++ lit "</p><p>Total: " ++ str_of_nat total
    ++ lit " | Kept: " ++ str_of_nat kept
    ++ lit " | Skipped: " ++ str_of_nat skipped
    ++ lit " | Accuracy (kept): " ++ fmt acc ++ lit "</p>".
Proof.
  intros H. unfold header_block.
  destruct (basename_of_path dir name H) as [-> _]. reflexivity.
Qed.

(** The header for a file under [/tmp]. *)
Lemma header_names_file_only_witness :
  header_block plain_format (lit "/tmp" ++ slash :: lit "r.json") 3 2 1
    (Finite (1 # 2))
  = lit "<h2>Postprocessed Report</h2><p>Source JSON: r.json</p><p>Total: 3 | Kept: 2 | Skipped: 1 | Accuracy (kept): </p>".
Proof.
  rewrite (header_names_file_only plain_format (lit "/tmp") (lit "r.json"));
    [reflexivity|].
  repeat (constructor; [discriminate|]). constructor.
Defined.

(** ** Integers as doubles *)

Lemma Qred_inject_Z n : Qred (inject_Z n) = inject_Z n.
Proof.
  unfold Qred, inject_Z.
  pose proof (Z.ggcd_gcd n 1) as Hg.
  pose proof (Z.ggcd_correct_divisors n 1) as Hd.
  destruct (Z.ggcd n 1) as [g [a b]]. simpl in Hg, Hd.
  rewrite Z.gcd_1_r in Hg. subst g. destruct Hd as [Ha Hb].
  assert (b = 1%Z) by lia. subst b. cbn. rewrite Ha.
  destruct a; reflexivity.
Qed.

Lemma Qred_scaled n k :
  (0 < k)%Z -> Qred (n * k # Z.to_pos k) = inject_Z n.
Proof.
  intros Hk. rewrite <- (Qred_inject_Z n). apply Qred_complete.
  unfold Qeq, inject_Z. simpl. rewrite Z2Pos.id by exact Hk. lia.
Qed.

Lemma round_half_even_one n : round_half_even n 1 = n.
Proof.
  unfold round_half_even. rewrite Z.div_1_r, Z.mod_1_r. reflexivity.
Qed.

Lemma floor_log2_integer n : (0 < n)%Z -> floor_log2 n 1 = Z.log2 n.
Proof.
  intros Hn. unfold floor_log2. change (Z.log2 1) with 0%Z.
  rewrite Z.sub_0_r. pose proof (Z.log2_nonneg n) as Hg.
  destruct (Z.leb_spec 0 (Z.log2 n)); [|lia].
  pose proof (Z.log2_spec n Hn) as [Hlo _].
  destruct (Z.ltb_spec n (1 * 2 ^ Z.log2 n)); [lia|reflexivity].
Qed.

Lemma round_double_small_integer n :
  (0 <= n < 2 ^ 53)%Z -> round_double (inject_Z n) = Finite (inject_Z n).
Proof.
  intros [Hn Hlt]. unfold round_double. rewrite Qred_inject_Z.
  unfold inject_Z. cbn [Qnum Qden]. unfold round_fraction.
  destruct (Z.leb_spec n 0); [assert (n = 0%Z) by lia; subst; reflexivity|].
  rewrite (floor_log2_integer n) by lia.
  assert (Hg : (0 <= Z.log2 n < 53)%Z).
  { split; [apply Z.log2_nonneg|]. apply Z.log2_lt_pow2; lia. }
  rewrite Z.max_l by lia.
  destruct (Z.leb_spec 0 (Z.log2 n - 52)) as [He|He].
  - assert (E : (Z.log2 n - 52 = 0)%Z) by lia. rewrite E.
    change (2 ^ 0)%Z with 1%Z. rewrite Z.mul_1_r, round_half_even_one.
    destruct (Z.leb_spec (2 ^ 1024) n) as [Hbig|_].
    + assert (2 ^ 53 < 2 ^ 1024)%Z by reflexivity. lia.
    + f_equal. apply Qred_inject_Z.
  - rewrite round_half_even_one. f_equal. apply Qred_scaled.
    apply Z.pow_pos_nonneg; lia.
Qed.

Lemma round_half_even_ge n d :
  (0 <= n)%Z -> (0 < d)%Z -> (n / d <= round_half_even n d)%Z.
Proof.
  intros Hn Hd. unfold round_half_even.
  destruct (2 * (n mod d) ?= d)%Z; [destruct (Z.even _)|..]; lia.
Qed.

Lemma round_double_huge_integer n :
  (2 ^ 1024 <= n)%Z -> round_double (inject_Z n) = Infinity.
Proof.
  intros Hbig. assert (Hpos : (0 < n)%Z).
  { assert (0 < 2 ^ 1024)%Z by reflexivity. lia. }
  unfold round_double. rewrite Qred_inject_Z.
  unfold inject_Z. cbn [Qnum Qden]. unfold round_fraction.
  destruct (Z.leb_spec n 0); [lia|].
  rewrite (floor_log2_integer n Hpos).
  assert (Hg : (1024 <= Z.log2 n)%Z).
  { apply Z.log2_le_pow2; [exact Hpos|exact Hbig]. }
  rewrite Z.max_l by lia.
  destruct (Z.leb_spec 0 (Z.log2 n - 52)) as [_|He]; [|lia].
  set (e := (Z.log2 n - 52)%Z).
  assert (Hm : (2 ^ 52 <= round_half_even n (1 * 2 ^ e))%Z).
  { etransitivity; [|apply round_half_even_ge; [lia|]].
    - apply Z.div_le_lower_bound.
      + rewrite Z.mul_1_l. apply Z.pow_pos_nonneg; unfold e; lia.
      + rewrite Z.mul_1_l, <- Z.pow_add_r by (unfold e; lia).
        replace (e + 52)%Z with (Z.log2 n) by (unfold e; lia).
        apply (Z.log2_spec n Hpos).
    - rewrite Z.mul_1_l. apply Z.pow_pos_nonneg; unfold e; lia. }
  destruct (Z.leb_spec (2 ^ 1024) (round_half_even n (1 * 2 ^ e) * 2 ^ e))
    as [_|Hlt]; [reflexivity|].
  exfalso.
  assert (Hp : (2 ^ 1024 <= 2 ^ 52 * 2 ^ e)%Z).
  { rewrite <- Z.pow_add_r by (unfold e; lia).
    apply Z.pow_le_mono_r; unfold e; lia. }
  assert (0 < 2 ^ e)%Z by (apply Z.pow_pos_nonneg; unfold e; lia).
  nia.
Qed.

Lemma extract_integer_as_float pre ws ip suf x :
  contains pre marker = false ->
  Forall (fun c => is_space c = true) ws ->
  ip <> [] -> forallb is_digit ip = true ->
  ends_integer suf ->
  round_double (inject_Z (numeral ip)) = x ->
  extract_score_from_html (pre ++ marker ++ ws ++ ip ++ suf) = Some x.
Proof.
  intros Hpre Hws Hne Hd Hsuf Hx.
  apply (extract_of_number _ ip).
  - apply re_search_marked; [exact Hpre|exact Hws|].
    rewrite (match_ws_group_number ip _ Hne Hd).
    apply match_number_integer; assumption.
  - rewrite <- (app_nil_r ip).
    apply (digits_not_word ip [] 84 (lit "rue") eq_refl Hne Hd).
  - rewrite <- (app_nil_r ip).
    apply (digits_not_word ip [] 70 (lit "alse") eq_refl Hne Hd).
  - rewrite (float_integer_value ip Hne Hd), Hx. reflexivity.
Qed.

(** X16. A token of digits that writes an integer below [2 ^ 53] gives
    exactly that integer: scores such as [0], [1] or [100] lose nothing. *)
Theorem extract_score_small_integer (pre ws ip suf : pystr) :
  contains pre marker = false ->
  Forall (fun c => is_space c = true) ws ->
  ip <> [] -> forallb is_digit ip = true ->
  ends_integer suf ->
  (numeral ip < 2 ^ 53)%Z ->
  extract_score_from_html (pre ++ marker ++ ws ++ ip ++ suf)
  = Some (Finite (inject_Z (numeral ip))).
Proof.
  intros Hpre Hws Hne Hd Hsuf Hlt.
  apply extract_integer_as_float; try assumption.
  apply round_double_small_integer. split; [|exact Hlt].
  rewrite numeral_digits_value. lia.
Qed.

(** A score of one hundred. *)
Lemma extract_score_small_integer_witness :
  extract_score_from_html
    (lit "<p>" ++ marker ++ lit " " ++ lit "100" ++ lit "</p>")
  = Some (Finite 100).
Proof.
  rewrite (extract_score_small_integer (lit "<p>") (lit " ") (lit "100")
             (lit "</p>"));
    try reflexivity; try discriminate.
  - repeat constructor.
  - split.
    + intros c Hc. inversion Hc; subst. reflexivity.
    + intros r Hr. discriminate.
Defined.

(** X17. A token of digits that writes an integer of [2 ^ 1024] or more does
    not make the extractor fail: the score is [inf]. *)
Theorem extract_score_huge_integer (pre ws ip suf : pystr) :
  contains pre marker = false ->
  Forall (fun c => is_space c = true) ws ->
  ip <> [] -> forallb is_digit ip = true ->
  ends_integer suf ->
  (2 ^ 1024 <= numeral ip)%Z ->
  extract_score_from_html (pre ++ marker ++ ws ++ ip ++ suf) = Some Infinity.
Proof.
  intros Hpre Hws Hne Hd Hsuf Hbig.
  apply extract_integer_as_float; try assumption.
  apply round_double_huge_integer, Hbig.
Qed.

(** A one followed by three hundred and nine zeros. *)
Lemma extract_score_huge_integer_witness :
  extract_score_from_html
    (lit "" ++ marker ++ lit " " ++ (49 :: repeat 48 309) ++ [])
  = Some Infinity.
Proof.
  apply (extract_score_huge_integer (lit "") (lit " ") (49 :: repeat 48 309) []).
  - reflexivity.
  - repeat constructor.
  - discriminate.
  - vm_compute. reflexivity.
  - split; [intros c Hc; discriminate|intros r Hr; discriminate].
  - vm_compute. discriminate.
Defined.
